(** * Storage-volume orchestration of the Redfish Terraform provider

    A shallow embedding of [redfish/resource_redfish_storage_volume.go]:
    the pure helpers ([getVolumeID], [getDrives], [checkOperationApplyTimes],
    [getStorageController]), the three submitters ([createVolume],
    [updateVolume], [deleteVolume]) and the four orchestration functions
    ([createRedfishStorageVolume], [readRedfishStorageVolume],
    [updateRedfishStorageVolume], [deleteRedfishStorageVolume]).

    Calls to the management controller are recorded, together with the
    answer the controller gave, in a transcript of events; Go's [defer] and
    run-time panics are part of the control-flow monad. *)

From Stdlib Require Import ZArith Lia.
From stdpp Require Import base option list strings gmap pretty.

Local Open Scope string_scope.
Local Open Scope Z_scope.
Local Open Scope list_scope.

(** ** Errors and fallible results *)

(** A Go [error].  Two dynamic types matter to the code: the plain errors
    made by [fmt.Errorf], and gofish's [*common.Error], which carries the
    HTTP status code returned by the controller.  [rendered] is what the
    library's [Error()] method prints for it. *)
Inductive error : Type :=
| errorString (msg : string)
| redfishError (HTTPReturnedStatusCode : Z) (rendered : string).

Definition Error (e : error) : string :=
  match e with
  | errorString msg => msg
  | redfishError _ rendered => rendered
  end.

(** Go's [(value, err)] pairs: exactly one side is meaningful. *)
Inductive result (A : Type) : Type :=
| OK (a : A)
| Err (e : error).
Arguments OK {A} a.
Arguments Err {A} e.

Definition is_OK {A} (r : result A) : bool :=
  match r with OK _ => true | Err _ => false end.

(** [fmt.Errorf] with its format already expanded. *)
Definition Errorf {A} (msg : string) : result A := Err (errorString msg).

(** ** The gofish entities the code reads *)

Record Drive := mkDrive {
  drive_Name : string;
  drive_ODataID : string
}.

Record Volume := mkVolume {
  vol_Name : string;
  vol_ODataID : string
}.

(** A storage controller.  The three method calls the code makes on it
    ([GetOperationApplyTimeValues], [Drives], [Volumes]) are requests to the
    controller; the record holds the answer each one gets. *)
Record Storage := mkStorage {
  st_ID : string;
  st_Name : string;
  st_ODataID : string;
  st_GetOperationApplyTimeValues : result (list string);
  st_Drives : result (list Drive);
  st_Volumes : result (list Volume)
}.

Record ComputerSystem := mkComputerSystem {
  sys_Name : string;
  sys_Storage : result (list Storage)
}.

#[global] Instance error_eq_dec : EqDecision error.
Proof. solve_decision. Defined.
#[global] Instance result_eq_dec {A} `{EqDecision A} : EqDecision (result A).
Proof. solve_decision. Defined.
#[global] Instance Drive_eq_dec : EqDecision Drive.
Proof. solve_decision. Defined.
#[global] Instance Volume_eq_dec : EqDecision Volume.
Proof. solve_decision. Defined.

(** ** Pure helpers *)

(** [getVolumeID]: the loop returns at the first volume whose name is the
    requested one. *)
Fixpoint getVolumeID (volumes : list Volume) (volumeName : string)
  : result string :=
  match volumes with
  | [] => Errorf "couldn't find a volume with the provided name"
  | v :: rest =>
      if decide (vol_Name v = volumeName) then OK (vol_ODataID v)
      else getVolumeID rest volumeName
  end.

(** [checkOperationApplyTimes]. *)
Fixpoint checkOperationApplyTimes (optionToCheck : string)
    (storageOperationApplyTimes : list string) : bool :=
  match storageOperationApplyTimes with
  | [] => false
  | v :: rest =>
      if decide (optionToCheck = v) then true
      else checkOperationApplyTimes optionToCheck rest
  end.

(** [getStorageController]. *)
Fixpoint getStorageController (storageControllers : list Storage)
    (diskControllerID : string) : result Storage :=
  match storageControllers with
  | [] => Errorf ("error. Didn't find the storage controller " +:+ diskControllerID)
  | storage :: rest =>
      if decide (st_ID storage = diskControllerID) then OK storage
      else getStorageController rest diskControllerID
  end.

(** [getDrives]: the two nested [range] loops, appending to
    [drivesToReturn], then the length test. *)
Definition getDrives_inner (v : Drive) (driveNames : list string)
    (drivesToReturn : list Drive) : list Drive :=
  foldl (fun acc w => if decide (drive_Name v = w) then acc ++ [v] else acc)
        drivesToReturn driveNames.

Definition getDrives_loop (drives : list Drive) (driveNames : list string)
  : list Drive :=
  foldl (fun acc v => getDrives_inner v driveNames acc) [] drives.

Definition getDrives (drives : list Drive) (driveNames : list string)
  : result (list Drive) :=
  let drivesToReturn := getDrives_loop drives driveNames in
  if decide (length driveNames ≠ length drivesToReturn)
  then Errorf "any of the drives you inserted doesn't exist"
  else OK drivesToReturn.

(** The (drive, requested name) pairs with equal names, drives outermost:
    the order in which the loops of [getDrives] visit them. *)
Definition matchingPairs (drives : list Drive) (driveNames : list string)
  : list (Drive * string) :=
  filter (fun p => drive_Name p.1 = p.2) (list_prod drives driveNames).

(** ** HTTP responses and request bodies *)

Definition StatusAccepted : Z := 202.
Definition StatusNotFound : Z := 404.

(** The part of [*http.Response] the code looks at.  [Header] is Go's
    [http.Header], a map from header names to the list of their values. *)
Record Response := mkResponse {
  StatusCode : Z;
  Header : gmap string (list string)
}.

(** [Header.Get]: the first value stored under the key, the empty string
    when there is none. *)
Definition Header_Get (h : gmap string (list string)) (key : string) : string :=
  match h !! key with
  | Some (v :: _) => v
  | _ => ""
  end.

(** Request bodies ([map[string]interface{}] values), entries in the order
    of the assignments that build them. *)
#[warnings="-register-all"] Inductive JSON : Type :=
| JString (s : string)
| JInt (n : Z)
| JObject (fields : list (string * JSON))
| JArray (items : list JSON).

(** ** Diagnostics *)

Inductive Severity := SevError | SevWarning.

Record Diagnostic := mkDiagnostic {
  diag_Severity : Severity;
  diag_Summary : string
}.

Definition Diagnostics := list Diagnostic.

(** [diag.Errorf], format already expanded: one diagnostic of severity
    error. *)
Definition diag_Errorf (msg : string) : Diagnostics :=
  [ {| diag_Severity := SevError; diag_Summary := msg |} ].

Definition HasError (diags : Diagnostics) : bool :=
  existsb (fun dg => match diag_Severity dg with SevError => true | SevWarning => false end)
          diags.

(** ** Jobs *)

(** What one GET of the job resource reports (its status field, and the
    message that comes with a failure). *)
Inductive JobStatus :=
| JobRunning
| JobCompleted
| JobFailed (message : string).

(** ** The service, as seen from this file *)

(** The answers of the controller to the calls the code makes.  Each call
    site is executed at most once in a run, except the job poll, whose
    answers are indexed by the number of the poll. *)
Record Service := mkService {
  svc_Systems : result (list ComputerSystem);
  svc_Post : string -> JSON -> result Response;
  svc_Patch : string -> JSON -> result Response;
  svc_Delete : string -> result Response;
  svc_GetVolume : string -> result Volume;
  svc_PowerOperation : string -> Z -> Z -> Diagnostics;
  svc_GetTask : string -> nat -> JobStatus
}.

(** ** The resource data [d] *)

(** The fields of [*schema.ResourceData] read through [d.Get], the resource
    identifier behind [d.Id]/[d.SetId], and the endpoint that
    [getRedfishServerEndpoint(d)] extracts.  An element of [drives] is
    [None] where the raw list holds [nil]. *)
Record ResourceData := mkResourceData {
  rd_endpoint : string;
  rd_Id : string;
  storage_controller_id : string;
  volume_type : string;
  volume_name : string;
  optimum_io_size_bytes : Z;
  capacity_bytes : Z;
  drives : list (option string);
  read_cache_policy : string;
  write_cache_policy : string;
  disk_cache_policy : string;
  settings_apply_time : string;
  reset_type : string;
  reset_timeout : Z;
  volume_job_timeout : Z
}.

Definition SetId (id : string) (d : ResourceData) : ResourceData :=
  {| rd_endpoint := rd_endpoint d;
     rd_Id := id;
     storage_controller_id := storage_controller_id d;
     volume_type := volume_type d;
     volume_name := volume_name d;
     optimum_io_size_bytes := optimum_io_size_bytes d;
     capacity_bytes := capacity_bytes d;
     drives := drives d;
     read_cache_policy := read_cache_policy d;
     write_cache_policy := write_cache_policy d;
     disk_cache_policy := disk_cache_policy d;
     settings_apply_time := settings_apply_time d;
     reset_type := reset_type d;
     reset_timeout := reset_timeout d;
     volume_job_timeout := volume_job_timeout d |}.

(** ** Transcript of a run *)

(** One event per call that leaves the process or touches the mutex table,
    with the answer received. *)
Inductive Event : Type :=
| EvLock (key : string)
| EvUnlock (key : string)
| EvSystems (answer : result (list ComputerSystem))
| EvStorage (system : string) (answer : result (list Storage))
| EvGetOperationApplyTimeValues (controller : string) (answer : result (list string))
| EvDrives (controller : string) (answer : result (list Drive))
| EvVolumes (controller : string) (answer : result (list Volume))
| EvPost (url : string) (payload : JSON) (answer : result Response)
| EvPatch (url : string) (payload : JSON) (answer : result Response)
| EvDelete (url : string) (answer : result Response)
| EvPowerOperation (resetType : string) (resetTimeout interval : Z) (answer : Diagnostics)
| EvGetTask (jobURI : string) (elapsed : Z) (answer : JobStatus)
| EvGetVolume (uri : string) (answer : result Volume).

Definition is_mutation_request (ev : Event) : bool :=
  match ev with
  | EvPost _ _ _ | EvPatch _ _ _ | EvDelete _ _ => true
  | _ => false
  end.

Definition is_power_operation (ev : Event) : bool :=
  match ev with EvPowerOperation _ _ _ _ => true | _ => false end.

Definition is_job_poll (ev : Event) : bool :=
  match ev with EvGetTask _ _ _ => true | _ => false end.

Definition is_mutex_event (ev : Event) : bool :=
  match ev with EvLock _ | EvUnlock _ => true | _ => false end.

(** ** Constants *)

Definition defaultStorageVolumeResetTimeout : Z := 120.
Definition defaultStorageVolumeJobTimeout : Z := 1200.
Definition intervalStorageVolumeJobCheckTime : Z := 10.

Definition OnResetApplyTime : string := "OnReset".
Definition ImmediateApplyTime : string := "Immediate".

(** ** Submitters *)

(** [deleteVolume]. *)
Definition deleteVolume (service : Service) (volumeURI : string)
  : list Event * result string :=
  let answer := svc_Delete service volumeURI in
  ([EvDelete volumeURI answer],
   match answer with
   | Err _ => Errorf ("error while deleting the volume " +:+ volumeURI)
   | OK res =>
       if decide (StatusCode res ≠ StatusAccepted)
       then Errorf "the operation was not successful. Return code was different from 202 ACCEPTED"
       else
         let jobID := Header_Get (Header res) "Location" in
         if decide (String.length jobID = 0%nat)
         then Errorf "there was some error when retreiving the jobID"
         else OK jobID
   end).

(** [createVolume]. *)
Definition createVolume (service : Service) (storageLink volumeType volumeName : string)
    (optimumIOSizeBytes capacityBytes : Z)
    (readCachePolicy writeCachePolicy diskCachePolicy : string)
    (drives : list Drive) (applyTime : string)
  : list Event * result string :=
  let listDrives :=
    (fun drive => JObject [("@odata.id", JString (drive_ODataID drive))]) <$> drives in
  let newVolume :=
    JObject [
      ("VolumeType", JString volumeType);
      ("DisplayName", JString volumeName);
      ("Name", JString volumeName);
      ("ReadCachePolicy", JString readCachePolicy);
      ("WriteCachePolicy", JString writeCachePolicy);
      ("CapacityBytes", JInt capacityBytes);
      ("OptimumIOSizeBytes", JInt optimumIOSizeBytes);
      ("Oem", JObject [("Dell", JObject [("DellVolume",
                 JObject [("DiskCachePolicy", JString diskCachePolicy)])])]);
      ("@Redfish.OperationApplyTime", JString applyTime);
      ("Drives", JArray listDrives) ] in
  let volumesURL := storageLink +:+ "/Volumes" in
  let answer := svc_Post service volumesURL newVolume in
  ([EvPost volumesURL newVolume answer],
   match answer with
   | Err err => Err err
   | OK res =>
       if decide (StatusCode res ≠ StatusAccepted)
       then Errorf "the query was unsucessfull"
       else
         let jobID := Header_Get (Header res) "Location" in
         if decide (String.length jobID = 0%nat)
         then Errorf "there was some error when retreiving the jobID"
         else OK jobID
   end).

(** [updateVolume]. *)
Definition updateVolume (service : Service) (storageLink : string)
    (readCachePolicy writeCachePolicy volumeName diskCachePolicy applyTime : string)
  : list Event * result string :=
  let payload :=
    JObject [
      ("ReadCachePolicy", JString readCachePolicy);
      ("WriteCachePolicy", JString writeCachePolicy);
      ("DisplayName", JString volumeName);
      ("Oem", JObject [("Dell", JObject [("DellVolume",
                 JObject [("DiskCachePolicy", JString diskCachePolicy)])])]);
      ("Name", JString volumeName);
      ("@Redfish.SettingsApplyTime", JObject [("ApplyTime", JString applyTime)]) ] in
  let volumesURL := storageLink +:+ "/Settings" in
  let answer := svc_Patch service volumesURL payload in
  ([EvPatch volumesURL payload answer],
   match answer with
   | Err err => Err err
   | OK res =>
       if decide (StatusCode res ≠ StatusAccepted)
       then Errorf "the query was unsucessfull"
       else
         let jobID := Header_Get (Header res) "Location" in
         if decide (String.length jobID = 0%nat)
         then Errorf "there was some error when retreiving the jobID"
         else OK jobID
   end).

(** ** Control flow of a Go function body *)

(** How a statement ends: it falls through to the next one with a value,
    executes [return] with the function's diagnostics, panics, or never
    ends ([Stuck], which only a loop that exhausts its budget of
    iterations produces). *)
Inductive Flow (A : Type) : Type :=
| Next (a : A)
| Exit (diags : Diagnostics)
| Panicked
| Stuck.
Arguments Next {A} a.
Arguments Exit {A} diags.
Arguments Panicked {A}.
Arguments Stuck {A}.

(** The state a body threads: the transcript so far, the resource data it
    may update through [SetId], and the stack of deferred calls (most recent
    first). *)
Record Frame := mkFrame {
  fr_trace : list Event;
  fr_d : ResourceData;
  fr_defers : list Event
}.

Definition M (A : Type) : Type := Frame -> Frame * Flow A.

#[global] Instance M_ret : MRet M := fun A a fr => (fr, Next a).

#[global] Instance M_bind : MBind M := fun A B k m fr =>
  match m fr with
  | (fr', Next a) => k a fr'
  | (fr', Exit diags) => (fr', Exit diags)
  | (fr', Panicked) => (fr', Panicked)
  | (fr', Stuck) => (fr', Stuck)
  end.

Definition emit (ev : Event) : M unit := fun fr =>
  ({| fr_trace := fr_trace fr ++ [ev]; fr_d := fr_d fr; fr_defers := fr_defers fr |},
   Next tt).

Definition emits (evs : list Event) : M unit := fun fr =>
  ({| fr_trace := fr_trace fr ++ evs; fr_d := fr_d fr; fr_defers := fr_defers fr |},
   Next tt).

(** [defer f(args)]: the arguments are evaluated now, the call happens when
    the function exits. *)
Definition defer (ev : Event) : M unit := fun fr =>
  ({| fr_trace := fr_trace fr; fr_d := fr_d fr; fr_defers := ev :: fr_defers fr |},
   Next tt).

Definition readData : M ResourceData := fun fr => (fr, Next (fr_d fr)).

Definition d_SetId (id : string) : M unit := fun fr =>
  ({| fr_trace := fr_trace fr; fr_d := SetId id (fr_d fr); fr_defers := fr_defers fr |},
   Next tt).

(** [return diags]. *)
Definition exit {A} (diags : Diagnostics) : M A := fun fr => (fr, Exit diags).

Definition panic {A} : M A := fun fr => (fr, Panicked).

(** A call of a helper that records its own events. *)
Definition call {A} (r : list Event * A) : M A :=
  emits r.1 ;; mret r.2.

(** How a call of one of the orchestration functions ends. *)
Inductive Outcome : Type :=
| Returned (diags : Diagnostics)
| Panics
| Hangs.

Record Run := mkRun {
  run_trace : list Event;
  run_d : ResourceData;
  run_outcome : Outcome
}.

(** Running a function body on [d].  When the body returns or panics the
    deferred calls run, last deferred first; a body that never ends runs
    none. *)
Definition runFunc (body : M Diagnostics) (d : ResourceData) : Run :=
  match body {| fr_trace := []; fr_d := d; fr_defers := [] |} with
  | (fr, Next diags) | (fr, Exit diags) =>
      mkRun (fr_trace fr ++ fr_defers fr) (fr_d fr) (Returned diags)
  | (fr, Panicked) => mkRun (fr_trace fr ++ fr_defers fr) (fr_d fr) Panics
  | (fr, Stuck) => mkRun (fr_trace fr) (fr_d fr) Hangs
  end.

(** ** Collaborators of this file that live elsewhere in the repository *)

(** Modelled from the spec: the endpoint mutex registry [redfishMutexKV]
    (section 4.1) is declared elsewhere in the package; locking and
    unlocking the mutex of a key are recorded as events. *)
Definition redfishMutexKV_Lock (key : string) : M unit := emit (EvLock key).
Definition redfishMutexKV_Unlock (key : string) : Event := EvUnlock key.

(** Modelled from the spec: [getRedfishServerEndpoint], defined elsewhere
    in the package, yields the endpoint identity, a string key, of the
    resource. *)
Definition getRedfishServerEndpoint (d : ResourceData) : string := rd_endpoint d.

(** Modelled from the spec: [PowerOperation], the power reset coordinator
    of section 4.4, is defined elsewhere in the package.  It is one call
    whose diagnostics, the only result the callers use, are an answer of the
    service: an error diagnostic when the reset fails or times out. *)
Definition PowerOperation (resetType : string) (resetTimeout interval : Z)
    (service : Service) : M Diagnostics :=
  let answer := svc_PowerOperation service resetType resetTimeout interval in
  emit (EvPowerOperation resetType resetTimeout interval answer) ;; mret answer.

(** Modelled from the spec: the constant [intervalSimpleUpdateJobCheckTime]
    is declared with the simple-update resource; the spec gives the reset
    poll cadence as 10 seconds. *)
Definition intervalSimpleUpdateJobCheckTime : Z := 10.

(** The states of the job poller. *)
Inductive PollerState :=
| Running
| Completed
| Failed (message : string)
| TimedOut.

Record PollEnd := mkPollEnd {
  pe_state : PollerState;
  pe_elapsed : Z;
  pe_polls : nat
}.

(** Modelled from the spec: [common.WaitForJobToFinish], the job poller of
    section 4.5.  Time is the poller's own clock, in seconds since the
    polling started; it advances by the fixed interval slept before each
    poll.  After the sleep the deadline is tested (elapsed time exceeding
    the timeout gives TimedOut), then the job resource is fetched with one
    GET: success gives Completed, failure gives Failed with the
    controller's message, anything else keeps the poller Running.  [fuel]
    bounds the number of iterations; [None] means it was exhausted with
    the poller still Running. *)
Fixpoint pollJob (getTask : nat -> JobStatus) (jobURI : string)
    (timeBetweenAttempts timeout : Z) (fuel : nat) (elapsed : Z) (polls : nat)
  : list Event * option PollEnd :=
  match fuel with
  | O => ([], None)
  | S fuel' =>
      let now := elapsed + timeBetweenAttempts in
      if timeout <? now then ([], Some (mkPollEnd TimedOut now polls))
      else
        let answer := getTask polls in
        let ev := EvGetTask jobURI now answer in
        match answer with
        | JobCompleted => ([ev], Some (mkPollEnd Completed now (S polls)))
        | JobFailed message => ([ev], Some (mkPollEnd (Failed message) now (S polls)))
        | JobRunning =>
            let r := pollJob getTask jobURI timeBetweenAttempts timeout fuel' now (S polls) in
            (ev :: r.1, r.2)
        end
  end.

(** The number of iterations after which the deadline has passed, for a
    positive interval. *)
Definition pollBudget (timeBetweenAttempts timeout : Z) : nat :=
  S (Z.to_nat (timeout / timeBetweenAttempts)).

(** Modelled from the spec: the error [common.WaitForJobToFinish] returns;
    Completed is success, Failed surfaces the controller's message
    verbatim, TimedOut is an error. *)
Definition pollError (st : PollerState) : option error :=
  match st with
  | Completed => None
  | Failed message => Some (errorString message)
  | TimedOut => Some (errorString "JobTimedOut")
  | Running => None
  end.

(** Modelled from the spec: [common.WaitForJobToFinish] as the callers see
    it, the poll loop run from time 0 with the budget above.  The callers
    pass the positive interval of this resource, for which the budget is
    never exhausted and [Stuck] never results. *)
Definition WaitForJobToFinish (service : Service) (jobURI : string)
    (timeBetweenAttempts timeout : Z) : M (option error) := fun fr =>
  let r := pollJob (svc_GetTask service jobURI) jobURI timeBetweenAttempts timeout
                   (pollBudget timeBetweenAttempts timeout) 0 0 in
  let fr' := {| fr_trace := fr_trace fr ++ r.1; fr_d := fr_d fr;
                fr_defers := fr_defers fr |} in
  match r.2 with
  | Some e => (fr', Next (pollError (pe_state e)))
  | None => (fr', Stuck)
  end.

(** ** Orchestration functions *)

(** The idiom [x, err := f(); if err != nil { return diag.Errorf(...) }]. *)
Definition try {A} (r : result A) (onError : error -> string) : M A :=
  match r with
  | OK a => mret a
  | Err err => exit (diag_Errorf (onError err))
  end.

(** A nested call of a function without deferred calls: its [return] ends
    the callee, not the caller. *)
Definition nested (body : M Diagnostics) : M Diagnostics := fun fr =>
  match body fr with
  | (fr', Exit diags) => (fr', Next diags)
  | other => other
  end.

(** The conversion loop from [[]interface{}] to [[]string]; [None] when it
    meets a [nil] element. *)
Fixpoint driveNamesOf (driveNamesRaw : list (option string)) : option (list string) :=
  match driveNamesRaw with
  | [] => Some []
  | None :: _ => None
  | Some name :: rest =>
      match driveNamesOf rest with
      | Some names => Some (name :: names)
      | None => None
      end
  end.

Definition convertDriveNames (driveNamesRaw : list (option string)) : M (list string) :=
  if decide (length driveNamesRaw = 0%nat)
  then exit (diag_Errorf "Error when getting the drives: drives cannot be empty")
  else match driveNamesOf driveNamesRaw with
       | None => exit (diag_Errorf "Error when getting the drives: drive name cannot be blank")
       | Some driveNames => mret driveNames
       end.

(** [systems[0]]: indexing an empty slice panics. *)
Definition index0 {A} (l : list A) : M A :=
  match l with
  | [] => panic
  | x :: _ => mret x
  end.

(** The [switch applyTime] block shared, textually, by the three mutations. *)
Definition resetIfOnReset (service : Service) (d : ResourceData) : M unit :=
  if decide (settings_apply_time d = OnResetApplyTime) then
    let resetType := reset_type d in
    let resetTimeout := reset_timeout d in
    diags ← PowerOperation resetType resetTimeout intervalSimpleUpdateJobCheckTime service;
    if HasError diags
    then exit (diag_Errorf "there was an issue when restarting the server")
    else mret tt
  else mret tt.

Definition readRedfishStorageVolume_body (service : Service) : M Diagnostics :=
  d ← readData;
  let diags : Diagnostics := [] in
  let answer := svc_GetVolume service (rd_Id d) in
  emit (EvGetVolume (rd_Id d) answer) ;;
  match answer with
  | Err err =>
      match err with
      | errorString _ =>
          exit (diag_Errorf ("There was an error with the API: " +:+ Error err))
      | redfishError code _ =>
          if decide (code = StatusNotFound)
          then d_SetId "" ;; exit diags
          else exit (diag_Errorf ("Status code " +:+ pretty code +:+ " - " +:+ Error err))
      end
  | OK _ => mret diags
  end.

Definition createRedfishStorageVolume_body (service : Service) : M Diagnostics :=
  d ← readData;
  redfishMutexKV_Lock (getRedfishServerEndpoint d) ;;
  defer (redfishMutexKV_Unlock (getRedfishServerEndpoint d)) ;;
  let storageID := storage_controller_id d in
  let volumeType := volume_type d in
  let volumeName := volume_name d in
  let optimumIOSizeBytes := optimum_io_size_bytes d in
  let capacityBytes := capacity_bytes d in
  let driveNamesRaw := drives d in
  let readCachePolicy := read_cache_policy d in
  let writeCachePolicy := write_cache_policy d in
  let diskCachePolicy := disk_cache_policy d in
  let applyTime := settings_apply_time d in
  driveNames ← convertDriveNames driveNamesRaw;
  let volumeJobTimeout := volume_job_timeout d in
  emit (EvSystems (svc_Systems service)) ;;
  systems ← try (svc_Systems service)
    (fun _ => "Error when retreiving the Systems from the Redfish API");
  system0 ← index0 systems;
  emit (EvStorage (sys_Name system0) (sys_Storage system0)) ;;
  storageControllers ← try (sys_Storage system0)
    (fun _ => "Error when retreiving the Storage from " +:+ sys_Name system0
              +:+ " from the Redfish API");
  storage ← try (getStorageController storageControllers storageID)
    (fun err => "Error when getting the storage struct: " +:+ Error err);
  emit (EvGetOperationApplyTimeValues (st_Name storage)
          (st_GetOperationApplyTimeValues storage)) ;;
  operationApplyTimes ← try (st_GetOperationApplyTimeValues storage)
    (fun _ => "couldn't retrieve operationApplyTimes from " +:+ st_Name storage
              +:+ " controller");
  (if negb (checkOperationApplyTimes applyTime operationApplyTimes)
   then exit (diag_Errorf ("Storage controller " +:+ storageID
                +:+ " does not support settings_apply_time: " +:+ applyTime))
   else mret tt) ;;
  emit (EvDrives (st_Name storage) (st_Drives storage)) ;;
  allStorageDrives ← try (st_Drives storage)
    (fun err => "Error when getting the drives attached to controller - " +:+ Error err);
  drives ← try (getDrives allStorageDrives driveNames)
    (fun err => "Error when getting the drives: " +:+ Error err);
  created ← call (createVolume service (st_ODataID storage) volumeType volumeName
                    optimumIOSizeBytes capacityBytes readCachePolicy writeCachePolicy
                    diskCachePolicy drives applyTime);
  jobID ← try created
    (fun err => "Error when creating the virtual disk on disk controller "
                +:+ storageID +:+ " - " +:+ Error err);
  resetIfOnReset service d ;;
  waited ← WaitForJobToFinish service jobID intervalStorageVolumeJobCheckTime
             volumeJobTimeout;
  match waited with
  | Some err =>
      exit (diag_Errorf ("Error, job " +:+ jobID +:+ " wasn't able to complete: "
                         +:+ Error err))
  | None =>
      emit (EvVolumes (st_Name storage) (st_Volumes storage)) ;;
      volumes ← try (st_Volumes storage)
        (fun err => "there was an issue when retrieving volumes - " +:+ Error err);
      volumeID ← try (getVolumeID volumes volumeName)
        (fun _ => "Error. The volume ID with volume name " +:+ volumeName +:+ " on "
                  +:+ storageID +:+ " controller was not found");
      d_SetId volumeID ;;
      nested (readRedfishStorageVolume_body service)
  end.

Definition updateRedfishStorageVolume_body (service : Service) : M Diagnostics :=
  d ← readData;
  let diags : Diagnostics := [] in
  redfishMutexKV_Lock (getRedfishServerEndpoint d) ;;
  defer (redfishMutexKV_Unlock (getRedfishServerEndpoint d)) ;;
  let storageID := storage_controller_id d in
  let volumeName := volume_name d in
  let driveNamesRaw := drives d in
  let readCachePolicy := read_cache_policy d in
  let writeCachePolicy := write_cache_policy d in
  let diskCachePolicy := disk_cache_policy d in
  let applyTime := settings_apply_time d in
  driveNames ← convertDriveNames driveNamesRaw;
  let volumeJobTimeout := volume_job_timeout d in
  emit (EvSystems (svc_Systems service)) ;;
  systems ← try (svc_Systems service)
    (fun _ => "Error when retreiving the Systems from the Redfish API");
  system0 ← index0 systems;
  emit (EvStorage (sys_Name system0) (sys_Storage system0)) ;;
  storageControllers ← try (sys_Storage system0)
    (fun _ => "Error when retreiving the Storage from " +:+ sys_Name system0
              +:+ " from the Redfish API");
  storage ← try (getStorageController storageControllers storageID)
    (fun err => "Error when getting the storage struct: " +:+ Error err);
  emit (EvGetOperationApplyTimeValues (st_Name storage)
          (st_GetOperationApplyTimeValues storage)) ;;
  operationApplyTimes ← try (st_GetOperationApplyTimeValues storage)
    (fun _ => "couldn't retrieve operationApplyTimes from " +:+ st_Name storage
              +:+ " controller");
  (if negb (checkOperationApplyTimes applyTime operationApplyTimes)
   then exit (diag_Errorf ("Storage controller " +:+ storageID
                +:+ " does not support settings_apply_time: " +:+ applyTime))
   else mret tt) ;;
  updated ← call (updateVolume service (rd_Id d) readCachePolicy writeCachePolicy
                    volumeName diskCachePolicy applyTime);
  jobID ← try updated
    (fun err => "Error when updating the virtual disk on disk controller "
                +:+ storageID +:+ " - " +:+ Error err);
  resetIfOnReset service d ;;
  waited ← WaitForJobToFinish service jobID intervalStorageVolumeJobCheckTime
             volumeJobTimeout;
  match waited with
  | Some err =>
      exit (diag_Errorf ("Error, job " +:+ jobID +:+ " wasn't able to complete: "
                         +:+ Error err))
  | None => mret diags
  end.

Definition deleteRedfishStorageVolume_body (service : Service) : M Diagnostics :=
  d ← readData;
  let diags : Diagnostics := [] in
  redfishMutexKV_Lock (getRedfishServerEndpoint d) ;;
  defer (redfishMutexKV_Unlock (getRedfishServerEndpoint d)) ;;
  let volumeJobTimeout := volume_job_timeout d in
  deleted ← call (deleteVolume service (rd_Id d));
  jobID ← try deleted
    (fun err => "Error. There was an error when deleting volume " +:+ rd_Id d
                +:+ " - " +:+ Error err);
  resetIfOnReset service d ;;
  waited ← WaitForJobToFinish service jobID intervalStorageVolumeJobCheckTime
             volumeJobTimeout;
  match waited with
  | Some err =>
      exit (diag_Errorf ("Error, timeout reached when waiting for job " +:+ jobID
                         +:+ " to finish. " +:+ Error err))
  | None => mret diags
  end.

Definition createRedfishStorageVolume (service : Service) (d : ResourceData) : Run :=
  runFunc (createRedfishStorageVolume_body service) d.

Definition readRedfishStorageVolume (service : Service) (d : ResourceData) : Run :=
  runFunc (readRedfishStorageVolume_body service) d.

Definition updateRedfishStorageVolume (service : Service) (d : ResourceData) : Run :=
  runFunc (updateRedfishStorageVolume_body service) d.

Definition deleteRedfishStorageVolume (service : Service) (d : ResourceData) : Run :=
  runFunc (deleteRedfishStorageVolume_body service) d.

(** ** Vocabulary of the statements *)

(** A submission answer that carries a job handle: status 202 Accepted and
    a non-empty [Location] header, whose value is the handle. *)
Definition accepted (answer : result Response) (jobID : string) : Prop :=
  ∃ res, answer = OK res ∧ StatusCode res = StatusAccepted
         ∧ Header_Get (Header res) "Location" = jobID ∧ jobID ≠ "".

(** The answer a mutation request got, when the event is one. *)
Definition submission_answer (ev : Event) : option (result Response) :=
  match ev with
  | EvPost _ _ answer | EvPatch _ _ answer | EvDelete _ answer => Some answer
  | _ => None
  end.

(** A GET of the job resource [jobURI] issued on the poller's clock after
    [since] and not after the deadline [timeout]. *)
Definition timely_poll (jobURI : string) (timeout since : Z) (ev : Event) : Prop :=
  ∃ now answer, ev = EvGetTask jobURI now answer ∧ since < now ≤ timeout.

(** ** Sample data for the worked examples *)

Definition locationHeader (jobURI : string) : gmap string (list string) :=
  {[ "Location" := [jobURI] ]}.

Definition sampleController (applyTimes : list string) : Storage :=
  mkStorage "RAID.Integrated.1-1" "PERC H730"
    "/redfish/v1/Systems/System.Embedded.1/Storage/RAID.Integrated.1-1"
    (OK applyTimes)
    (OK [mkDrive "Disk0" "/drives/0"; mkDrive "Disk1" "/drives/1"])
    (OK [mkVolume "vd0" "/volumes/0"]).

(** A controller that advertises [applyTimes], answers every mutation
    request with [status] and a [Location] header, whose host reset ends
    with the diagnostics [reset], and whose jobs complete at the second
    poll. *)
Definition sampleService (applyTimes : list string) (status : Z)
    (reset : Diagnostics) : Service :=
  mkService
    (OK [mkComputerSystem "System.Embedded.1" (OK [sampleController applyTimes])])
    (fun _ _ => OK (mkResponse status (locationHeader "/jobs/1")))
    (fun _ _ => OK (mkResponse status (locationHeader "/jobs/2")))
    (fun _ => OK (mkResponse status (locationHeader "/jobs/3")))
    (fun _ => OK (mkVolume "vd0" "/volumes/0"))
    (fun _ _ _ => reset)
    (fun _ k => if decide (k = 1%nat) then JobCompleted else JobRunning).

Definition sampleData (applyTime : string) : ResourceData :=
  mkResourceData "https://bmc-1" "/volumes/0" "RAID.Integrated.1-1" "Mirrored" "vd0"
    0 1000000000 [Some "Disk0"; Some "Disk1"] "Off" "WriteThrough" "Enabled"
    applyTime "ForceRestart" 120 1200.

(** The three mutations of a storage volume, and the function that runs
    each. *)
Inductive Mutation := Create | Update | Delete.

Definition runMutation (op : Mutation) (service : Service) (d : ResourceData) : Run :=
  match op with
  | Create => createRedfishStorageVolume service d
  | Update => updateRedfishStorageVolume service d
  | Delete => deleteRedfishStorageVolume service d
  end.

(** The event is a mutation request whose answer carries a job handle. *)
Definition accepted_submission (ev : Event) : Prop :=
  ∃ answer jobID, submission_answer ev = Some answer ∧ accepted answer jobID.

(** The mutation requests of a transcript, in order. *)
Definition mutation_requests (trace : list Event) : list Event :=
  List.filter is_mutation_request trace.

(** A power operation that came back with an error diagnostic. *)
Definition failed_reset (ev : Event) : Prop :=
  match ev with
  | EvPowerOperation _ _ _ answer => HasError answer = true
  | _ => False
  end.

(** A capability query answered with a set of apply-time values of which
    [applyTime] is not a member. *)
Definition unsupported_capability (applyTime : string) (ev : Event) : Prop :=
  match ev with
  | EvGetOperationApplyTimeValues _ (OK values) => applyTime ∉ values
  | _ => False
  end.

(** A capability query answered with a set of apply-time values that
    contains [applyTime]. *)
Definition supported_capability (applyTime : string) (ev : Event) : Prop :=
  match ev with
  | EvGetOperationApplyTimeValues _ (OK values) => applyTime ∈ values
  | _ => False
  end.

(** The events of a transcript that come before the first one satisfying
    [p]. *)
Fixpoint events_before (p : Event -> bool) (trace : list Event) : list Event :=
  match trace with
  | [] => []
  | ev :: rest => if p ev then [] else ev :: events_before p rest
  end.

(** The value a request body holds under [key]: as in a Go map, the last
    assignment to the key. *)
Definition payload_field (key : string) (payload : JSON) : option JSON :=
  match payload with
  | JObject fields =>
      foldl (fun found kv => if decide (kv.1 = key) then Some kv.2 else found)
            None fields
  | _ => None
  end.

Definition is_volume_read (ev : Event) : bool :=
  match ev with EvGetVolume _ _ => true | _ => false end.

(** What the request of a create is: a POST to the [Volumes] collection of
    the controller found by its ID in the first system, whose body names the
    volume, carries the requested apply time and lists the references of
    the drives selected by [getDrives].  No event may be a PATCH or a
    DELETE. *)
Definition create_request (service : Service) (d : ResourceData) (ev : Event) : Prop :=
  match ev with
  | EvPost url payload answer =>
      ∃ system systems controllers storage allDrives driveNames selected,
        svc_Systems service = OK (system :: systems)
        ∧ sys_Storage system = OK controllers
        ∧ getStorageController controllers (storage_controller_id d) = OK storage
        ∧ st_Drives storage = OK allDrives
        ∧ driveNamesOf (drives d) = Some driveNames
        ∧ getDrives allDrives driveNames = OK selected
        ∧ url = st_ODataID storage +:+ "/Volumes"
        ∧ payload_field "Name" payload = Some (JString (volume_name d))
        ∧ payload_field "VolumeType" payload = Some (JString (volume_type d))
        ∧ payload_field "CapacityBytes" payload = Some (JInt (capacity_bytes d))
        ∧ payload_field "@Redfish.OperationApplyTime" payload
          = Some (JString (settings_apply_time d))
        ∧ payload_field "Drives" payload
          = Some (JArray ((fun v => JObject [("@odata.id", JString (drive_ODataID v))])
                          <$> selected))
        ∧ answer = svc_Post service url payload
  | EvPatch _ _ _ | EvDelete _ _ => False
  | _ => True
  end.

(** What the request of an update is: a PATCH to the [Settings] of the
    volume the resource identifies, whose body carries the name, the cache
    policies and the apply time, and neither a volume type, nor a capacity,
    nor drives. *)
Definition update_request (service : Service) (d : ResourceData) (ev : Event) : Prop :=
  match ev with
  | EvPatch url payload answer =>
      url = rd_Id d +:+ "/Settings"
      ∧ payload_field "Name" payload = Some (JString (volume_name d))
      ∧ payload_field "ReadCachePolicy" payload = Some (JString (read_cache_policy d))
      ∧ payload_field "WriteCachePolicy" payload = Some (JString (write_cache_policy d))
      ∧ payload_field "@Redfish.SettingsApplyTime" payload
        = Some (JObject [("ApplyTime", JString (settings_apply_time d))])
      ∧ payload_field "VolumeType" payload = None
      ∧ payload_field "CapacityBytes" payload = None
      ∧ payload_field "Drives" payload = None
      ∧ answer = svc_Patch service url payload
  | EvPost _ _ _ | EvDelete _ _ => False
  | _ => True
  end.

(** What the request of a delete is: a DELETE of the volume the resource
    identifies. *)
Definition delete_request (service : Service) (d : ResourceData) (ev : Event) : Prop :=
  match ev with
  | EvDelete url answer => url = rd_Id d ∧ answer = svc_Delete service url
  | EvPost _ _ _ | EvPatch _ _ _ => False
  | _ => True
  end.

(** The mutex operations of a transcript, in order. *)
Definition mutex_events (trace : list Event) : list Event :=
  List.filter is_mutex_event trace.

(** The power operations of a transcript, in order. *)
Definition power_operations (trace : list Event) : list Event :=
  List.filter is_power_operation trace.

(** What the power operation of a mutation is: a reset of the configured
    type, with the configured timeout and the check interval of the
    package. *)
Definition configured_reset (d : ResourceData) (ev : Event) : Prop :=
  match ev with
  | EvPowerOperation resetType resetTimeout interval _ =>
      resetType = reset_type d ∧ resetTimeout = reset_timeout d
      ∧ interval = intervalSimpleUpdateJobCheckTime
  | _ => True
  end.

(** ** The entry points of the resource *)

Section EntryPoints.

(** [NewConfig], defined elsewhere in the package, connects to the endpoint
    named in the resource data and returns the service client, or an error.
    [NewConfig k d] is its answer to the call number [k] of a run. *)
Variable NewConfig : nat -> ResourceData -> result Service.

(** [diag.Errorf(err.Error())] passes the text of the error as the format;
    [formatted] is what [fmt.Sprintf] makes of a format without operands. *)
Variable formatted : string -> string.

Definition resourceRedfishStorageVolumeCreate (k : nat) (d : ResourceData) : Run :=
  match NewConfig k d with
  | Err err => mkRun [] d (Returned (diag_Errorf (formatted (Error err))))
  | OK service => createRedfishStorageVolume service d
  end.

Definition resourceRedfishStorageVolumeRead (k : nat) (d : ResourceData) : Run :=
  match NewConfig k d with
  | Err err => mkRun [] d (Returned (diag_Errorf (formatted (Error err))))
  | OK service => readRedfishStorageVolume service d
  end.

(** The update, then, unless it reported an error, the read, which asks
    for a service client of its own. *)
Definition resourceRedfishStorageVolumeUpdate (k : nat) (d : ResourceData) : Run :=
  match NewConfig k d with
  | Err err => mkRun [] d (Returned (diag_Errorf (formatted (Error err))))
  | OK service =>
      let updated := updateRedfishStorageVolume service d in
      match run_outcome updated with
      | Returned diags =>
          if HasError diags then updated
          else
            let read := resourceRedfishStorageVolumeRead (S k) (run_d updated) in
            mkRun (run_trace updated ++ run_trace read) (run_d read) (run_outcome read)
      | Panics => updated
      | Hangs => updated
      end
  end.

Definition resourceRedfishStorageVolumeDelete (k : nat) (d : ResourceData) : Run :=
  match NewConfig k d with
  | Err err => mkRun [] d (Returned (diag_Errorf (formatted (Error err))))
  | OK service => deleteRedfishStorageVolume service d
  end.

End EntryPoints.

(** * Properties *)

(** ** Entity resolution *)

Section EntityResolver.

Lemma getVolumeID_cons (v : Volume) (rest : list Volume) (volumeName : string) :
  getVolumeID (v :: rest) volumeName =
  if decide (vol_Name v = volumeName) then OK (vol_ODataID v)
  else getVolumeID rest volumeName.
Proof. reflexivity. Qed.

(** C1 (as amended): [getVolumeID] returns the stable reference of the
    first volume of the collection, in collection order, whose name is the
    requested one, hence of the only such volume when there is exactly one;
    it fails exactly when no volume has that name.  Several matches are not
    detected. *)
Theorem getVolumeID_first_match (volumes : list Volume) (volumeName : string) :
  match filter (fun v => vol_Name v = volumeName) volumes with
  | [] => getVolumeID volumes volumeName
          = Errorf "couldn't find a volume with the provided name"
  | v :: _ => getVolumeID volumes volumeName = OK (vol_ODataID v)
  end.
Proof.
  induction volumes as [|v rest IH]; [reflexivity|].
  rewrite getVolumeID_cons, filter_cons.
  destruct (decide (vol_Name v = volumeName)); [reflexivity|exact IH].
Qed.

(** C1 (counterexample): with two volumes of the requested name the
    resolution does not fail; it answers with the first of them. *)
Lemma getVolumeID_two_matches :
  let volumes := [mkVolume "vd0" "/volumes/0"; mkVolume "vd0" "/volumes/1"] in
  length (filter (fun v => vol_Name v = "vd0") volumes) = 2%nat
  ∧ getVolumeID volumes "vd0" = OK "/volumes/0".
Proof. split; reflexivity. Qed.

End EntityResolver.

(** ** Drive selection *)

Section DriveSelection.

Implicit Types (drives : list Drive) (driveNames : list string).

Lemma getDrives_inner_spec v driveNames acc :
  getDrives_inner v driveNames acc
  = acc ++ (filter (fun p => drive_Name p.1 = p.2) (pair v <$> driveNames)).*1.
Proof.
  unfold getDrives_inner. revert acc.
  induction driveNames as [|w ws IH]; intros acc; cbn [foldl].
  - by rewrite app_nil_r.
  - rewrite IH, fmap_cons, filter_cons. cbn [fst snd].
    destruct (decide (drive_Name v = w)); simpl; [|done].
    by rewrite <- app_assoc.
Qed.

Lemma matchingPairs_cons v drives driveNames :
  matchingPairs (v :: drives) driveNames
  = filter (fun p => drive_Name p.1 = p.2) (pair v <$> driveNames)
    ++ matchingPairs drives driveNames.
Proof. unfold matchingPairs. simpl. by rewrite filter_app. Qed.

Lemma getDrives_loop_acc drives driveNames acc :
  foldl (fun acc v => getDrives_inner v driveNames acc) acc drives
  = acc ++ (matchingPairs drives driveNames).*1.
Proof.
  revert acc. induction drives as [|v vs IH]; intros acc; simpl.
  - by rewrite app_nil_r.
  - rewrite IH, getDrives_inner_spec, matchingPairs_cons, fmap_app.
    by rewrite <- app_assoc.
Qed.

Lemma getDrives_loop_spec drives driveNames :
  getDrives_loop drives driveNames = (matchingPairs drives driveNames).*1.
Proof. unfold getDrives_loop. by rewrite getDrives_loop_acc. Qed.

(** With pairwise-distinct requested names a drive is matched at most once. *)
Lemma matching_names_NoDup v driveNames :
  NoDup driveNames →
  (filter (fun p => drive_Name p.1 = p.2) (pair v <$> driveNames)).*1
  = if decide (drive_Name v ∈ driveNames) then [v] else [].
Proof.
  induction 1 as [|w ws Hw Hws IH]; [done|].
  rewrite fmap_cons, filter_cons. cbn [fst snd].
  destruct (decide (drive_Name v = w)) as [Heq|Hne].
  - rewrite fmap_cons, IH. cbn [fst]. subst w.
    rewrite (decide_True (P := drive_Name v ∈ drive_Name v :: ws)) by left.
    by rewrite decide_False.
  - rewrite IH. destruct (decide (drive_Name v ∈ ws)) as [Hin|Hnin].
    + rewrite decide_True; [done|]. by right.
    + rewrite decide_False; [done|]. rewrite elem_of_cons.
      intros [Heq|Hin]; [by apply Hne | by apply Hnin].
Qed.

Lemma matchingPairs_NoDup drives driveNames :
  NoDup driveNames →
  (matchingPairs drives driveNames).*1
  = filter (fun v => drive_Name v ∈ driveNames) drives.
Proof.
  intros Hnd. induction drives as [|v vs IH]; [done|].
  rewrite matchingPairs_cons, fmap_app, IH, matching_names_NoDup, filter_cons by done.
  by destruct (decide (drive_Name v ∈ driveNames)).
Qed.

Lemma named_drives_length drives driveNames :
  length (filter (fun v => drive_Name v ∈ driveNames) drives)
  = length (filter (fun w => w ∈ driveNames) (drive_Name <$> drives)).
Proof.
  induction drives as [|v vs IH]; [done|].
  rewrite fmap_cons, !filter_cons.
  destruct (decide (drive_Name v ∈ driveNames)); simpl; by rewrite IH.
Qed.

Lemma named_drives_complete drives driveNames :
  NoDup (drive_Name <$> drives) → NoDup driveNames →
  length (filter (fun v => drive_Name v ∈ driveNames) drives) = length driveNames
  ↔ ∀ w, w ∈ driveNames → ∃ v, v ∈ drives ∧ drive_Name v = w.
Proof.
  intros HD HN. rewrite named_drives_length.
  set (found := filter (fun w => w ∈ driveNames) (drive_Name <$> drives)).
  assert (found ⊆+ driveNames) as Hsub.
  { apply NoDup_submseteq; [by apply NoDup_filter|].
    intros w Hw. by apply list_elem_of_filter in Hw as [? _]. }
  split.
  - intros Hlen w Hw.
    assert (found ≡ₚ driveNames) as Hperm
      by (apply submseteq_length_Permutation; [done|lia]).
    rewrite <- Hperm in Hw. apply list_elem_of_filter in Hw as [_ Hw].
    apply list_elem_of_fmap in Hw as (v & -> & Hv). eauto.
  - intros Hall. apply Nat.le_antisymm; [by apply submseteq_length|].
    apply submseteq_length, NoDup_submseteq; [done|].
    intros w Hw. apply list_elem_of_filter. split; [done|].
    destruct (Hall w Hw) as (v & Hv & <-). by apply list_elem_of_fmap_2.
Qed.

(** C10: [getDrives] collects one entry per (drive, requested name) pair
    with equal names, in the order of the drive collection, and fails
    exactly when the number of these pairs differs from the number of
    requested names.  When the drive names are pairwise distinct and so are
    the requested names, it succeeds if and only if every requested name is
    the name of some drive, and then returns exactly the drives so named. *)
Theorem getDrives_spec drives driveNames :
  getDrives drives driveNames
  = (if decide (length (matchingPairs drives driveNames) = length driveNames)
     then OK (matchingPairs drives driveNames).*1
     else Errorf "any of the drives you inserted doesn't exist")
  ∧ (NoDup (drive_Name <$> drives) → NoDup driveNames →
     (is_OK (getDrives drives driveNames) = true
      ↔ ∀ w, w ∈ driveNames → ∃ v, v ∈ drives ∧ drive_Name v = w)
     ∧ ∀ selected, getDrives drives driveNames = OK selected →
         selected = filter (fun v => drive_Name v ∈ driveNames) drives).
Proof.
  assert (getDrives drives driveNames
    = if decide (length (matchingPairs drives driveNames) = length driveNames)
      then OK (matchingPairs drives driveNames).*1
      else Errorf "any of the drives you inserted doesn't exist") as Heq.
  { unfold getDrives. simpl. rewrite getDrives_loop_spec, length_fmap.
    destruct (decide (length driveNames ≠ _)) as [Hne|Heq];
      destruct (decide (_ = length driveNames)) as [Heq'|Hne']; try done.
    all: exfalso; lia. }
  split; [exact Heq|]. intros HD HN. rewrite Heq.
  pose proof (named_drives_complete drives driveNames HD HN) as Hiff.
  rewrite <- (matchingPairs_NoDup drives driveNames HN), length_fmap in Hiff.
  split.
  - rewrite <- Hiff. by destruct (decide _).
  - intros selected. destruct (decide _); [|done].
    intros [= <-]. by apply matchingPairs_NoDup.
Qed.

(** C10 (worked example): two of three drives are requested, in the
    opposite order; they come back in collection order. *)
Lemma getDrives_spec_witness :
  let drives := [mkDrive "Disk0" "/drives/0"; mkDrive "Disk1" "/drives/1";
                 mkDrive "Disk2" "/drives/2"] in
  let driveNames := ["Disk2"; "Disk0"] in
  NoDup (drive_Name <$> drives) ∧ NoDup driveNames
  ∧ getDrives drives driveNames
    = OK [mkDrive "Disk0" "/drives/0"; mkDrive "Disk2" "/drives/2"]
  ∧ ∀ selected, getDrives drives driveNames = OK selected →
      selected = filter (fun v => drive_Name v ∈ driveNames) drives.
Proof.
  intros drives driveNames.
  assert (NoDup (drive_Name <$> drives)) as HD
    by (apply (bool_decide_unpack _); vm_compute; exact I).
  assert (NoDup driveNames) as HN
    by (apply (bool_decide_unpack _); vm_compute; exact I).
  split; [exact HD|]. split; [exact HN|]. split; [reflexivity|].
  exact (proj2 (proj2 (getDrives_spec drives driveNames) HD HN)).
Defined.

End DriveSelection.

(** ** Capability membership *)

Lemma checkOperationApplyTimes_elem (optionToCheck : string) (values : list string) :
  checkOperationApplyTimes optionToCheck values = true ↔ optionToCheck ∈ values.
Proof.
  induction values as [|v rest IH]; cbn.
  - split; [discriminate|]. by intros ?%elem_of_nil.
  - rewrite elem_of_cons. destruct (decide (optionToCheck = v)).
    + split; [by left|done].
    + rewrite IH. split; [by right|]. by intros [?|?].
Qed.

(** ** Submission *)

Section Submitter.

Variable service : Service.

Lemma String_length_zero (s : string) : String.length s = 0%nat ↔ s = "".
Proof. destruct s; simpl; split; intros; congruence. Qed.

Ltac job_handle_cases answer :=
  destruct answer as [res|err]; cbn;
  [ destruct (decide (StatusCode res ≠ StatusAccepted)) as [Hst|Hst];
    [| apply dec_stable in Hst;
       destruct (decide (String.length (Header_Get (Header res) "Location") = 0%nat))
         as [Hloc|Hloc]; rewrite String_length_zero in Hloc ]
  | ].

Ltac job_handle_solve :=
  unfold accepted;
  repeat split;
  try match goal with
      | |- _ = OK _ → _ => intros [= <-]; eauto 10
      | |- _ = OK _ → _ => intros [=]
      | |- (∃ _, _) → _ =>
          intros (res' & Hres & Hst' & Hloc' & Hne'); simplify_eq; try done
      | |- (∀ _, ¬ _) → _ =>
          intros Hno; try (eexists; reflexivity);
          exfalso; eapply Hno; eauto 10
      end.

Lemma createVolume_job_handle storageLink volumeType volumeName
    optimumIOSizeBytes capacityBytes readCachePolicy writeCachePolicy
    diskCachePolicy drives applyTime :
  let r := createVolume service storageLink volumeType volumeName optimumIOSizeBytes
             capacityBytes readCachePolicy writeCachePolicy diskCachePolicy drives
             applyTime in
  ∃ url payload answer,
    answer = svc_Post service url payload
    ∧ r.1 = [EvPost url payload answer]
    ∧ (∀ jobID, r.2 = OK jobID ↔ accepted answer jobID)
    ∧ ((∀ jobID, ¬ accepted answer jobID) → ∃ err, r.2 = Err err).
Proof.
  intros r. subst r. unfold createVolume. cbn [fst snd].
  eexists _, _, _. split; [reflexivity|]. split; [reflexivity|].
  match goal with |- context [svc_Post ?s ?u ?p] => generalize (svc_Post s u p) end.
  intros answer. job_handle_cases answer; job_handle_solve.
Qed.

Lemma updateVolume_job_handle storageLink readCachePolicy writeCachePolicy
    volumeName diskCachePolicy applyTime :
  let r := updateVolume service storageLink readCachePolicy writeCachePolicy
             volumeName diskCachePolicy applyTime in
  ∃ url payload answer,
    answer = svc_Patch service url payload
    ∧ r.1 = [EvPatch url payload answer]
    ∧ (∀ jobID, r.2 = OK jobID ↔ accepted answer jobID)
    ∧ ((∀ jobID, ¬ accepted answer jobID) → ∃ err, r.2 = Err err).
Proof.
  intros r. subst r. unfold updateVolume. cbn [fst snd].
  eexists _, _, _. split; [reflexivity|]. split; [reflexivity|].
  match goal with |- context [svc_Patch ?s ?u ?p] => generalize (svc_Patch s u p) end.
  intros answer. job_handle_cases answer; job_handle_solve.
Qed.

Lemma deleteVolume_job_handle volumeURI :
  let r := deleteVolume service volumeURI in
  ∃ answer,
    answer = svc_Delete service volumeURI
    ∧ r.1 = [EvDelete volumeURI answer]
    ∧ (∀ jobID, r.2 = OK jobID ↔ accepted answer jobID)
    ∧ ((∀ jobID, ¬ accepted answer jobID) → ∃ err, r.2 = Err err).
Proof.
  intros r. subst r. unfold deleteVolume. cbn [fst snd].
  eexists. split; [reflexivity|]. split; [reflexivity|].
  generalize (svc_Delete service volumeURI).
  intros answer. job_handle_cases answer; job_handle_solve.
Qed.

(** The two ways a submission ends, for the symbolic execution below. *)
Lemma submit_cases (r : result string) (answer : result Response) :
  (∀ jobID, r = OK jobID ↔ accepted answer jobID) →
  (∃ jobID, r = OK jobID ∧ accepted answer jobID)
  ∨ (∃ err, r = Err err ∧ ∀ jobID, ¬ accepted answer jobID).
Proof.
  intros Hiff. destruct r as [jobID|err].
  - left. exists jobID. split; [done|]. by apply Hiff.
  - right. exists err. split; [done|]. intros jobID Hacc. by apply Hiff in Hacc.
Qed.

(** C3: each submitter ([createVolume], [updateVolume], [deleteVolume])
    returns a job handle if and only if the answer to its request has
    status 202 Accepted and a non-empty [Location] header, and the handle is
    then the value of that header; every other answer (another status, an
    empty or missing [Location], a transport error) yields an error and no
    handle. *)
Theorem submitters_job_handle :
  (∀ storageLink volumeType volumeName optimumIOSizeBytes capacityBytes
     readCachePolicy writeCachePolicy diskCachePolicy drives applyTime,
     let r := createVolume service storageLink volumeType volumeName
                optimumIOSizeBytes capacityBytes readCachePolicy writeCachePolicy
                diskCachePolicy drives applyTime in
     ∃ url payload answer,
       answer = svc_Post service url payload
       ∧ r.1 = [EvPost url payload answer]
       ∧ (∀ jobID, r.2 = OK jobID ↔ accepted answer jobID)
       ∧ ((∀ jobID, ¬ accepted answer jobID) → ∃ err, r.2 = Err err))
  ∧ (∀ storageLink readCachePolicy writeCachePolicy volumeName diskCachePolicy
       applyTime,
     let r := updateVolume service storageLink readCachePolicy writeCachePolicy
                volumeName diskCachePolicy applyTime in
     ∃ url payload answer,
       answer = svc_Patch service url payload
       ∧ r.1 = [EvPatch url payload answer]
       ∧ (∀ jobID, r.2 = OK jobID ↔ accepted answer jobID)
       ∧ ((∀ jobID, ¬ accepted answer jobID) → ∃ err, r.2 = Err err))
  ∧ (∀ volumeURI,
     let r := deleteVolume service volumeURI in
     ∃ answer,
       answer = svc_Delete service volumeURI
       ∧ r.1 = [EvDelete volumeURI answer]
       ∧ (∀ jobID, r.2 = OK jobID ↔ accepted answer jobID)
       ∧ ((∀ jobID, ¬ accepted answer jobID) → ∃ err, r.2 = Err err)).
Proof.
  split; [|split]; intros.
  - apply createVolume_job_handle.
  - apply updateVolume_job_handle.
  - apply deleteVolume_job_handle.
Qed.

End Submitter.

(** ** Further properties of the pure helpers *)

Section Lookup.

Lemma getStorageController_cons (storage : Storage) (rest : list Storage)
    (diskControllerID : string) :
  getStorageController (storage :: rest) diskControllerID =
  if decide (st_ID storage = diskControllerID) then OK storage
  else getStorageController rest diskControllerID.
Proof. reflexivity. Qed.

(** X1: [getStorageController] returns the first controller of the list
    whose ID is the requested one (every controller before it has another
    ID), and fails, with an error naming the ID, exactly when no controller
    of the list has that ID. *)
Theorem getStorageController_spec (storageControllers : list Storage)
    (diskControllerID : string) :
  (∀ storage,
     getStorageController storageControllers diskControllerID = OK storage ↔
     ∃ before after,
       storageControllers = before ++ storage :: after
       ∧ st_ID storage = diskControllerID
       ∧ Forall (fun s => st_ID s ≠ diskControllerID) before)
  ∧ (getStorageController storageControllers diskControllerID
     = Errorf ("error. Didn't find the storage controller " +:+ diskControllerID)
     ↔ Forall (fun s => st_ID s ≠ diskControllerID) storageControllers).
Proof.
  induction storageControllers as [|s rest [IHok IHerr]].
  - split.
    + intros storage. split; [discriminate|].
      intros (before & after & Heq & _). by destruct before.
    + split; [constructor|reflexivity].
  - rewrite getStorageController_cons.
    destruct (decide (st_ID s = diskControllerID)) as [Hid|Hid]; split.
    + intros storage. split.
      * intros [= <-]. exists [], rest. by repeat split.
      * intros (before & after & Heq & Hst & Hbefore).
        destruct before as [|s' before].
        -- by injection Heq as <- _.
        -- injection Heq as <- _. by apply Forall_cons_1 in Hbefore as [? _].
    + split; [discriminate|]. intros [? _]%Forall_cons_1. done.
    + intros storage. rewrite IHok. split.
      * intros (before & after & -> & Hst & Hbefore).
        exists (s :: before), after. repeat split; [done|]. by constructor.
      * intros (before & after & Heq & Hst & Hbefore).
        destruct before as [|s' before].
        -- injection Heq as <- _. done.
        -- injection Heq as <- ->. apply Forall_cons_1 in Hbefore as [_ Hbefore].
           eauto.
    + rewrite IHerr. split; [by constructor|]. by intros [_ ?]%Forall_cons_1.
Qed.

(** X2: [checkOperationApplyTimes] answers [true] exactly when the option
    is one of the advertised values; in particular it answers [false] for
    an empty list of values. *)
Theorem checkOperationApplyTimes_member (optionToCheck : string)
    (storageOperationApplyTimes : list string) :
  (checkOperationApplyTimes optionToCheck storageOperationApplyTimes = true
   ↔ optionToCheck ∈ storageOperationApplyTimes)
  ∧ (checkOperationApplyTimes optionToCheck storageOperationApplyTimes = false
     ↔ optionToCheck ∉ storageOperationApplyTimes).
Proof.
  split; [apply checkOperationApplyTimes_elem|].
  rewrite <- checkOperationApplyTimes_elem.
  by destruct (checkOperationApplyTimes _ _).
Qed.

(** X3: the conversion of the raw drive list succeeds exactly when no
    element is [nil], and then yields the names in the same order; it
    fails exactly when some element is [nil]. *)
Theorem driveNamesOf_spec (driveNamesRaw : list (option string)) :
  (∀ driveNames,
     driveNamesOf driveNamesRaw = Some driveNames ↔ driveNamesRaw = Some <$> driveNames)
  ∧ (driveNamesOf driveNamesRaw = None ↔ None ∈ driveNamesRaw).
Proof.
  induction driveNamesRaw as [|[name|] rest [IHok IHnone]]; cbn.
  - split.
    + intros driveNames. split; [by intros [= <-]|]. by destruct driveNames.
    + split; [discriminate|]. by intros ?%elem_of_nil.
  - split.
    + intros driveNames. destruct (driveNamesOf rest) as [names|] eqn:Hrest.
      * split.
        -- intros [= <-]. cbn. f_equal. by apply IHok.
        -- destruct driveNames as [|n ns]; [discriminate|]. intros [= <- Hns].
           f_equal. apply IHok in Hns. congruence.
      * split; [discriminate|].
        destruct driveNames as [|n ns]; [discriminate|]. intros [= <- Hns].
        apply IHok in Hns. discriminate Hns.
    + rewrite elem_of_cons. destruct (driveNamesOf rest) as [names|] eqn:Hrest.
      * split; [discriminate|]. intros [[=]|Hin]. by apply IHnone in Hin.
      * split; [|done]. intros _. right. by apply IHnone.
  - split.
    + intros driveNames. split; [discriminate|].
      destruct driveNames; discriminate.
    + split; [|done]. intros _. left.
Qed.

End Lookup.

Section DriveSelectionMore.

Implicit Types (drives : list Drive) (driveNames : list string).

Lemma matchingPairs_elem drives driveNames v :
  v ∈ (matchingPairs drives driveNames).*1
  ↔ v ∈ drives ∧ drive_Name v ∈ driveNames.
Proof.
  unfold matchingPairs. rewrite list_elem_of_fmap. split.
  - intros ([v' w] & -> & Hin). apply list_elem_of_filter in Hin as [Heq Hin].
    apply list_elem_of_In, in_prod_iff in Hin as [Hv Hw]. cbn in *.
    rewrite Heq. by rewrite !list_elem_of_In.
  - intros [Hv Hw]. exists (v, drive_Name v). split; [done|].
    apply list_elem_of_filter. split; [done|].
    apply list_elem_of_In, in_prod_iff. by rewrite <- !list_elem_of_In.
Qed.

(** X6: whatever the names, distinct or not, a successful [getDrives]
    returns as many entries as names were requested, and the drives it
    returns are exactly (as a set) the drives of the collection whose name
    is requested. *)
Theorem getDrives_sound drives driveNames selected :
  getDrives drives driveNames = OK selected →
  length selected = length driveNames
  ∧ ∀ v, v ∈ selected ↔ v ∈ drives ∧ drive_Name v ∈ driveNames.
Proof.
  unfold getDrives. cbv zeta. rewrite getDrives_loop_spec.
  destruct (decide _) as [Hne|Heq]; [discriminate|]. intros [= <-].
  split; [apply dec_stable in Heq; done|]. apply matchingPairs_elem.
Qed.

(** X7: with no requested name [getDrives] succeeds with no drive,
    whatever the collection; on an empty collection it succeeds only for
    an empty request. *)
Theorem getDrives_empty drives driveNames :
  getDrives drives [] = OK []
  ∧ (is_OK (getDrives [] driveNames) = true ↔ driveNames = []).
Proof.
  split.
  - unfold getDrives. cbv zeta. rewrite getDrives_loop_spec.
    assert (matchingPairs drives [] = []) as ->.
    { unfold matchingPairs. induction drives; [done|]. done. }
    reflexivity.
  - unfold getDrives. cbn. destruct driveNames; cbn; split; done.
Qed.

End DriveSelectionMore.

(** X6 (worked example): a name requested twice selects its drive twice. *)
Lemma getDrives_sound_witness :
  getDrives [mkDrive "Disk0" "/drives/0"; mkDrive "Disk1" "/drives/1"]
            ["Disk1"; "Disk1"]
  = OK [mkDrive "Disk1" "/drives/1"; mkDrive "Disk1" "/drives/1"]
  ∧ length [mkDrive "Disk1" "/drives/1"; mkDrive "Disk1" "/drives/1"]
    = length ["Disk1"; "Disk1"].
Proof.
  assert (getDrives [mkDrive "Disk0" "/drives/0"; mkDrive "Disk1" "/drives/1"]
                    ["Disk1"; "Disk1"]
          = OK [mkDrive "Disk1" "/drives/1"; mkDrive "Disk1" "/drives/1"]) as Hrun
    by reflexivity.
  split; [exact Hrun|].
  exact (proj1 (getDrives_sound _ _ _ Hrun)).
Defined.

Lemma driveNamesOf_None (driveNamesRaw : list (option string)) :
  driveNamesOf driveNamesRaw = None ↔ None ∈ driveNamesRaw.
Proof.
  induction driveNamesRaw as [|[name|] rest IH]; cbn.
  - split; [discriminate|]. by intros ?%elem_of_nil.
  - rewrite elem_of_cons. destruct (driveNamesOf rest) as [names|].
    + split; [discriminate|]. intros [[=]|Hin]. by apply IH in Hin.
    + split; [|done]. intros _. right. by apply IH.
  - split; [|done]. intros _. left.
Qed.


(** ** Reading a volume *)

Section Read.

Variables (service : Service) (d : ResourceData).

(** C9: when fetching the volume fails with a management-API error whose
    status code is 404 Not Found, [readRedfishStorageVolume] sets the
    resource identifier to the empty string and returns no diagnostics; any
    other API error, and any error that is not an API error, is returned as
    an error diagnostic with the identifier unchanged.  (A successful fetch
    returns no diagnostics and changes nothing.) *)
Theorem readRedfishStorageVolume_spec :
  let r := readRedfishStorageVolume service d in
  run_trace r = [EvGetVolume (rd_Id d) (svc_GetVolume service (rd_Id d))]
  ∧ match svc_GetVolume service (rd_Id d) with
    | Err (redfishError code rendered) =>
        if decide (code = StatusNotFound)
        then run_outcome r = Returned [] ∧ run_d r = SetId "" d
             ∧ rd_Id (run_d r) = ""
        else run_outcome r
             = Returned (diag_Errorf ("Status code " +:+ pretty code +:+ " - "
                                      +:+ rendered))
             ∧ HasError (diag_Errorf ("Status code " +:+ pretty code +:+ " - "
                                      +:+ rendered)) = true
             ∧ run_d r = d
    | Err (errorString msg) =>
        run_outcome r
        = Returned (diag_Errorf ("There was an error with the API: " +:+ msg))
        ∧ HasError (diag_Errorf ("There was an error with the API: " +:+ msg)) = true
        ∧ run_d r = d
    | OK _ => run_outcome r = Returned [] ∧ run_d r = d
    end.
Proof.
  unfold readRedfishStorageVolume, runFunc, readRedfishStorageVolume_body.
  unfold readData, emit, exit, d_SetId, mbind, M_bind, mret, M_ret. cbn.
  destruct (svc_GetVolume service (rd_Id d)) as [vol|[msg|code rendered]]; cbn.
  - done.
  - done.
  - destruct (decide (code = StatusNotFound)); cbn; done.
Qed.

End Read.

(** ** Job polling *)

Section Poller.

Variables (getTask : nat -> JobStatus) (jobURI : string).
Variables (timeBetweenAttempts timeout : Z).

Local Abbreviation poll := (pollJob getTask jobURI timeBetweenAttempts timeout).
Local Abbreviation timely := (timely_poll jobURI timeout).

Lemma timely_poll_weaken since since' ev :
  since' ≤ since → timely since ev → timely since' ev.
Proof. intros Hle (now & answer & -> & Hnow). exists now, answer. split; [done|lia]. Qed.

Lemma pollJob_S fuel elapsed polls :
  poll (S fuel) elapsed polls =
  let now := elapsed + timeBetweenAttempts in
  if timeout <? now then ([], Some (mkPollEnd TimedOut now polls))
  else
    let answer := getTask polls in
    let ev := EvGetTask jobURI now answer in
    match answer with
    | JobCompleted => ([ev], Some (mkPollEnd Completed now (S polls)))
    | JobFailed message => ([ev], Some (mkPollEnd (Failed message) now (S polls)))
    | JobRunning =>
        let r := poll fuel now (S polls) in
        (ev :: r.1, r.2)
    end.
Proof. reflexivity. Qed.

(** More fuel does not change a poll loop that ended. *)
Lemma pollJob_fuel_S fuel elapsed polls tr e :
  poll fuel elapsed polls = (tr, Some e) →
  poll (S fuel) elapsed polls = (tr, Some e).
Proof.
  revert elapsed polls tr e. induction fuel as [|fuel IH]; intros elapsed polls tr e H.
  - discriminate H.
  - rewrite pollJob_S in H. rewrite (pollJob_S (S fuel)). cbv zeta in H |- *.
    destruct (timeout <? elapsed + timeBetweenAttempts); [exact H|].
    destruct (getTask polls); try exact H.
    destruct (poll fuel _ _) as [tr' [e'|]] eqn:Hrec; cbn [fst snd] in H; [|discriminate H].
    rewrite (IH _ _ _ _ Hrec). exact H.
Qed.

Lemma pollJob_fuel_le fuel fuel' elapsed polls tr e :
  (fuel ≤ fuel')%nat →
  poll fuel elapsed polls = (tr, Some e) →
  poll fuel' elapsed polls = (tr, Some e).
Proof.
  induction 1 as [|fuel' Hle IH]; [done|].
  intros H. by apply pollJob_fuel_S, IH.
Qed.

(** The loop invariant: started before the deadline with fuel that covers
    the time left, the loop ends in a terminal state. *)
Lemma pollJob_ends fuel elapsed polls :
  0 < timeBetweenAttempts → (0 < fuel)%nat →
  timeout < elapsed + Z.of_nat fuel * timeBetweenAttempts →
  ∃ tr e,
    poll fuel elapsed polls = (tr, Some e)
    ∧ pe_state e ≠ Running
    ∧ elapsed < pe_elapsed e
    ∧ (elapsed ≤ timeout → pe_elapsed e ≤ timeout + timeBetweenAttempts)
    ∧ (pe_state e = TimedOut ↔ timeout < pe_elapsed e)
    ∧ Forall (timely elapsed) tr
    ∧ (pe_polls e = polls + length tr)%nat
    ∧ (length tr ≤ fuel)%nat.
Proof.
  intros Hpos. revert elapsed polls.
  induction fuel as [|fuel IH]; intros elapsed polls Hsome Hfuel; [lia|].
  rewrite pollJob_S. cbv zeta.
  destruct (Z.ltb_spec timeout (elapsed + timeBetweenAttempts)) as [Hlate|Hearly].
  - eexists [], _. split; [reflexivity|]. cbn.
    repeat split; try done; try lia.
  - destruct (getTask polls) as [| |message] eqn:Hanswer.
    + destruct (IH (elapsed + timeBetweenAttempts) (S polls)) as
        (tr & e & Hrec & Hterm & Hlt & Hbound & Hto & Hall & Hpolls & Hlen); [nia|lia|].
      rewrite Hrec. cbn [fst snd].
      eexists _, e. split; [reflexivity|].
      split; [done|]. split; [lia|]. split; [lia|]. split; [done|].
      split; [|cbn [length]; lia].
      constructor.
      * eexists _, _. split; [reflexivity|]. lia.
      * eapply Forall_impl; [exact Hall|].
        intros ev. apply timely_poll_weaken. lia.
    + eexists [_], _. split; [reflexivity|]. cbn.
      repeat split; try done; try lia.
      constructor; [|constructor]. eexists _, _. split; [reflexivity|]. lia.
    + eexists [_], _. split; [reflexivity|]. cbn.
      repeat split; try done; try lia.
      constructor; [|constructor]. eexists _, _. split; [reflexivity|]. lia.
Qed.

Lemma pollBudget_covers :
  0 < timeBetweenAttempts →
  timeout < 0 + Z.of_nat (pollBudget timeBetweenAttempts timeout) * timeBetweenAttempts.
Proof.
  intros Hpos. unfold pollBudget.
  rewrite Nat2Z.inj_succ.
  destruct (Z.le_gt_cases 0 timeout) as [Hnn|Hneg].
  - rewrite Z2Nat.id by (apply Z.div_pos; lia).
    pose proof (Z.mul_succ_div_gt timeout timeBetweenAttempts Hpos). lia.
  - assert (0 <= Z.of_nat (Z.to_nat (timeout / timeBetweenAttempts))) by lia. nia.
Qed.

(** With a positive interval and a non-negative timeout the loop ends, the
    same way for every sufficient budget of iterations, within
    [timeout + timeBetweenAttempts] of its start. *)
Lemma pollJob_ends_in_time :
  0 < timeBetweenAttempts → 0 ≤ timeout →
  ∃ tr e,
    (∀ fuel, (pollBudget timeBetweenAttempts timeout ≤ fuel)%nat →
       poll fuel 0 0%nat = (tr, Some e))
    ∧ (pe_state e = Completed ∨ (∃ message, pe_state e = Failed message)
       ∨ pe_state e = TimedOut)
    ∧ 0 < pe_elapsed e ≤ timeout + timeBetweenAttempts
    ∧ (pe_state e = TimedOut ↔ timeout < pe_elapsed e)
    ∧ Forall (timely 0) tr
    ∧ (length tr ≤ pollBudget timeBetweenAttempts timeout)%nat.
Proof.
  intros Hpos Hnn.
  destruct (pollJob_ends (pollBudget timeBetweenAttempts timeout) 0 0%nat Hpos
              (Nat.lt_0_succ _) (pollBudget_covers Hpos))
    as (tr & e & Hrun & Hterm & Hlt & Hbound & Hto & Hall & Hpolls & Hlen).
  exists tr, e. split; [|split; [|split; [|split; [|split]]]]; try done.
  - intros fuel Hfuel. by eapply pollJob_fuel_le.
  - destruct (pe_state e); eauto. done.
  - split; [done|]. by apply Hbound.
Qed.

End Poller.

(** ** Runs of the mutations *)

Section WaitForJob.

Variables (service : Service) (jobURI : string) (timeout : Z).

(** Called with the interval of this resource, the poller always ends; all
    it adds to the transcript are polls of the job. *)
Lemma WaitForJobToFinish_run (fr : Frame) :
  ∃ polls st,
    WaitForJobToFinish service jobURI intervalStorageVolumeJobCheckTime timeout fr
    = ({| fr_trace := fr_trace fr ++ polls; fr_d := fr_d fr;
          fr_defers := fr_defers fr |}, Next (pollError st))
    ∧ Forall (timely_poll jobURI timeout 0) polls.
Proof.
  assert (0 < intervalStorageVolumeJobCheckTime) as Hpos by done.
  destruct (pollJob_ends (svc_GetTask service jobURI) jobURI
              intervalStorageVolumeJobCheckTime timeout
              (pollBudget intervalStorageVolumeJobCheckTime timeout) 0 0%nat Hpos
              (Nat.lt_0_succ _)
              (pollBudget_covers intervalStorageVolumeJobCheckTime timeout Hpos))
    as (tr & e & Hrun & _ & _ & _ & _ & Hall & _).
  exists tr, (pe_state e). unfold WaitForJobToFinish. rewrite Hrun. cbn [fst snd].
  split; [reflexivity|exact Hall].
Qed.

End WaitForJob.

(** *** Symbolic execution of the bodies *)

Section Stepping.

Context {A : Type}.

Lemma try_OK (a : A) onError fr : try (OK a) onError fr = (fr, Next a).
Proof. reflexivity. Qed.

Lemma try_Err (e : error) onError fr :
  @try A (Err e) onError fr = (fr, Exit (diag_Errorf (onError e))).
Proof. reflexivity. Qed.

Lemma index0_nil fr : @index0 A [] fr = (fr, Panicked).
Proof. reflexivity. Qed.

Lemma index0_cons (x : A) l fr : index0 (x :: l) fr = (fr, Next x).
Proof. reflexivity. Qed.

Lemma call_run (r : list Event * A) fr :
  call r fr = ({| fr_trace := fr_trace fr ++ r.1; fr_d := fr_d fr;
                  fr_defers := fr_defers fr |}, Next r.2).
Proof. reflexivity. Qed.

End Stepping.

Lemma resetIfOnReset_run service d fr :
  resetIfOnReset service d fr =
  if decide (settings_apply_time d = OnResetApplyTime) then
    let answer := svc_PowerOperation service (reset_type d) (reset_timeout d)
                    intervalSimpleUpdateJobCheckTime in
    ({| fr_trace := fr_trace fr ++ [EvPowerOperation (reset_type d) (reset_timeout d)
                                      intervalSimpleUpdateJobCheckTime answer];
        fr_d := fr_d fr; fr_defers := fr_defers fr |},
     if HasError answer
     then Exit (diag_Errorf "there was an issue when restarting the server")
     else Next tt)
  else (fr, Next tt).
Proof.
  unfold resetIfOnReset. destruct (decide _); [|reflexivity].
  unfold PowerOperation, emit, mbind, M_bind, mret, M_ret. cbn.
  by destruct (HasError _).
Qed.

Lemma convertDriveNames_run driveNamesRaw fr :
  convertDriveNames driveNamesRaw fr =
  (fr, if decide (length driveNamesRaw = 0%nat)
       then Exit (diag_Errorf "Error when getting the drives: drives cannot be empty")
       else match driveNamesOf driveNamesRaw with
            | None => Exit (diag_Errorf
                        "Error when getting the drives: drive name cannot be blank")
            | Some driveNames => Next driveNames
            end).
Proof.
  unfold convertDriveNames. destruct (decide _); [reflexivity|].
  by destruct (driveNamesOf _).
Qed.

Lemma nested_read_run service fr :
  nested (readRedfishStorageVolume_body service) fr =
  let answer := svc_GetVolume service (rd_Id (fr_d fr)) in
  let fr1 := {| fr_trace := fr_trace fr ++ [EvGetVolume (rd_Id (fr_d fr)) answer];
                fr_d := fr_d fr; fr_defers := fr_defers fr |} in
  match answer with
  | Err (errorString msg) =>
      (fr1, Next (diag_Errorf ("There was an error with the API: " +:+ msg)))
  | Err (redfishError code rendered) =>
      if decide (code = StatusNotFound)
      then ({| fr_trace := fr_trace fr1; fr_d := SetId "" (fr_d fr);
               fr_defers := fr_defers fr |}, Next [])
      else (fr1, Next (diag_Errorf ("Status code " +:+ pretty code +:+ " - "
                                    +:+ rendered)))
  | OK _ => (fr1, Next [])
  end.
Proof.
  unfold nested, readRedfishStorageVolume_body.
  unfold readData, emit, exit, d_SetId, mbind, M_bind, mret, M_ret. cbn.
  destruct (svc_GetVolume service (rd_Id (fr_d fr))) as [vol|[msg|code rendered]]; cbn.
  - done.
  - done.
  - by destruct (decide (code = StatusNotFound)).
Qed.

#[local] Arguments try : simpl never.
#[local] Arguments index0 : simpl never.
#[local] Arguments call : simpl never.
#[local] Arguments resetIfOnReset : simpl never.
#[local] Arguments convertDriveNames : simpl never.
#[local] Arguments nested : simpl never.
#[local] Arguments WaitForJobToFinish : simpl never.
#[local] Arguments createVolume : simpl never.
#[local] Arguments updateVolume : simpl never.
#[local] Arguments deleteVolume : simpl never.
#[local] Arguments getDrives : simpl never.
#[local] Arguments getVolumeID : simpl never.
#[local] Arguments getStorageController : simpl never.
#[local] Arguments checkOperationApplyTimes : simpl never.
#[local] Arguments HasError : simpl never.
#[local] Arguments diag_Errorf : simpl never.
#[local] Arguments String.append : simpl never.

Ltac unfold_body :=
  unfold runMutation, createRedfishStorageVolume, updateRedfishStorageVolume,
    deleteRedfishStorageVolume, runFunc, createRedfishStorageVolume_body,
    updateRedfishStorageVolume_body, deleteRedfishStorageVolume_body,
    redfishMutexKV_Lock, redfishMutexKV_Unlock, getRedfishServerEndpoint;
  unfold emit, defer, readData, exit, d_SetId, mbind, M_bind, mret, M_ret;
  cbn.

(** The submitter's events and result, replaced by what the lemmas on the
    submitters say about them. *)
Ltac submit_step H :=
  let url := fresh "url" in
  let payload := fresh "payload" in
  let answer := fresh "answer" in
  let jobID := fresh "jobID" in
  let err := fresh "err" in
  let Htrace := fresh "Htrace" in
  let Hresult := fresh "Hresult" in
  let Haccepted := fresh "Haccepted" in
  let Hrejected := fresh "Hrejected" in
  cbv zeta in H;
  let Hanswer := fresh "Hanswer" in
  first [ destruct H as (url & payload & answer & Hanswer & Htrace & H & _)
        | destruct H as (answer & Hanswer & Htrace & H & _) ];
  apply submit_cases in H;
  destruct H as [(jobID & Hresult & Haccepted)|(err & Hresult & Hrejected)];
  rewrite call_run, Htrace, Hresult.

Ltac symex_step :=
  match goal with
  | |- context [convertDriveNames ?l ?fr] =>
      rewrite (convertDriveNames_run l fr);
      destruct (decide (length l = 0%nat)) as [?|?];
      [|destruct (driveNamesOf l) as [?|] eqn:?]
  | |- context [try (OK ?a) ?f ?fr] => rewrite (try_OK a f fr)
  | |- context [try (Err ?e) ?f ?fr] => rewrite (try_Err e f fr)
  | |- context [try ?r ?f ?fr] => destruct r as [?|?] eqn:?
  | |- context [index0 ?l ?fr] =>
      destruct l as [|? ?]; [rewrite index0_nil | rewrite index0_cons]
  | |- context [negb (checkOperationApplyTimes ?a ?l)] =>
      let Hcheck := fresh "Hcheck" in
      destruct (checkOperationApplyTimes a l) eqn:Hcheck
  | |- context [call (createVolume ?s ?a1 ?a2 ?a3 ?a4 ?a5 ?a6 ?a7 ?a8 ?a9 ?a10) _] =>
      let H := fresh in
      pose proof (createVolume_job_handle s a1 a2 a3 a4 a5 a6 a7 a8 a9 a10) as H;
      submit_step H
  | |- context [call (updateVolume ?s ?a1 ?a2 ?a3 ?a4 ?a5 ?a6) _] =>
      let H := fresh in
      pose proof (updateVolume_job_handle s a1 a2 a3 a4 a5 a6) as H;
      submit_step H
  | |- context [call (deleteVolume ?s ?a1) _] =>
      let H := fresh in
      pose proof (deleteVolume_job_handle s a1) as H;
      submit_step H
  | |- context [resetIfOnReset ?s ?d ?fr] =>
      let Hpolicy := fresh "Hpolicy" in
      let Hreset := fresh "Hreset" in
      rewrite (resetIfOnReset_run s d fr);
      destruct (decide (settings_apply_time d = OnResetApplyTime)) as [Hpolicy|Hpolicy];
      [cbv zeta;
       destruct (HasError (svc_PowerOperation s (reset_type d) (reset_timeout d)
                             intervalSimpleUpdateJobCheckTime)) eqn:Hreset|]
  | |- context [WaitForJobToFinish ?s ?j _ ?t ?fr] =>
      let polls := fresh "polls" in
      let st := fresh "st" in
      let Hpolls := fresh "Hpolls" in
      destruct (WaitForJobToFinish_run s j t fr) as (polls & st & -> & Hpolls);
      destruct (pollError st) as [?|] eqn:?
  | |- context [nested (readRedfishStorageVolume_body ?s) ?fr] =>
      rewrite (nested_read_run s fr); cbn;
      match goal with
      | |- context [svc_GetVolume ?s ?u] =>
          destruct (svc_GetVolume s u) as [?|[?|code ?]] eqn:?;
          [| |destruct (decide (code = StatusNotFound))]
      end
  end; cbn.

(** Runs the function to each of its exits; the property [P] of the run is
    kept folded meanwhile. *)
Ltac symex :=
  lazymatch goal with
  | |- ?P (runMutation ?op ?service ?d) =>
      let Q := fresh "Q" in
      set (Q := P); tryif is_var op then destruct op else idtac;
      unfold_body; repeat symex_step;
      subst Q; cbv beta; cbn [run_trace run_d run_outcome];
      rewrite <- ?app_assoc; cbn [app]
  end.

(** *** Reasoning on transcripts *)

Lemma Exists_Forall_neg {A} (P : A → Prop) (l : list A) :
  Exists P l → Forall (fun x => ¬ P x) l → False.
Proof. induction 1; inversion 1; eauto. Qed.

Lemma polls_classified (P : Event → Prop) jobURI timeout (polls : list Event) :
  (∀ jobURI elapsed answer, P (EvGetTask jobURI elapsed answer)) →
  Forall (timely_poll jobURI timeout 0) polls →
  Forall P polls.
Proof.
  intros HP Hall. eapply Forall_impl; [exact Hall|].
  intros ev (now & answer & -> & _). apply HP.
Qed.

Ltac trace_Forall tac :=
  solve [ repeat first
    [ apply Forall_nil_2
    | apply Forall_cons_2; [solve [tac]|]
    | apply Forall_app_2; [|]
    | (eapply polls_classified; [solve [intros; tac]|eassumption]) ] ].

Ltac split_last2 t :=
  lazymatch t with
  | [_; _] => constr:(@nil Event)
  | ?x :: ?l => let r := split_last2 l in constr:(x :: r)
  end.

Ltac split_last t :=
  lazymatch t with
  | [_] => constr:(@nil Event)
  | ?x :: ?l => let r := split_last l in constr:(x :: r)
  | ?l ++ [_] => constr:(l)
  | ?l ++ ?k => let r := split_last k in constr:(l ++ r)
  end.

(** ** The endpoint mutex *)

Section Mutex.

Variables (op : Mutation) (service : Service) (d : ResourceData).

(** C4: every mutation (create, update, delete) locks the mutex of the
    endpoint as its first step and unlocks it as its last, on every way out:
    each error return, the success return, and the panic on an empty list
    of systems.  No other mutex operation happens in between, and the
    function always comes to an exit. *)
Theorem mutation_holds_endpoint_mutex :
  ∃ mid,
    run_trace (runMutation op service d)
    = EvLock (rd_endpoint d) :: mid ++ [EvUnlock (rd_endpoint d)]
    ∧ Forall (fun ev => is_mutex_event ev = false) mid
    ∧ run_outcome (runMutation op service d) ≠ Hangs.
Proof.
  pattern (runMutation op service d). symex.
  all: match goal with
       | |- ∃ mid, _ :: ?t = _ ∧ _ =>
           let mid := split_last t in exists mid
       end.
  all: split; [cbn [app]; rewrite <- ?app_assoc; reflexivity|].
  all: split; [|done].
  all: trace_Forall ltac:(reflexivity).
Qed.

End Mutex.

(** ** One submission per mutation *)

Lemma polls_no_requests jobURI timeout (polls : list Event) :
  Forall (timely_poll jobURI timeout 0) polls →
  mutation_requests polls = [].
Proof.
  induction 1 as [|ev polls (now & answer & -> & _) _ IH]; [done|].
  exact IH.
Qed.

Lemma mutation_requests_app (l k : list Event) :
  mutation_requests (l ++ k) = mutation_requests l ++ mutation_requests k.
Proof. apply List.filter_app. Qed.

Lemma mutation_requests_cons (ev : Event) (l : list Event) :
  mutation_requests (ev :: l)
  = if is_mutation_request ev then ev :: mutation_requests l else mutation_requests l.
Proof. reflexivity. Qed.

Ltac count_requests :=
  repeat first
    [ rewrite mutation_requests_cons; cbn [is_mutation_request]
    | rewrite mutation_requests_app
    | match goal with
      | H : Forall (timely_poll _ _ _) ?polls |- context [mutation_requests ?polls] =>
          rewrite (polls_no_requests _ _ _ H)
      end ].

Lemma mutation_at_most_one_request (op : Mutation) (service : Service)
    (d : ResourceData) :
  (length (mutation_requests (run_trace (runMutation op service d))) ≤ 1)%nat.
Proof.
  pattern (runMutation op service d). symex.
  all: count_requests.
  all: cbn; lia.
Qed.

Lemma successful_mutation_one_request (op : Mutation) (service : Service)
    (d : ResourceData) :
  run_outcome (runMutation op service d) = Returned [] →
  length (mutation_requests (run_trace (runMutation op service d))) = 1%nat.
Proof.
  pattern (runMutation op service d). symex.
  all: intros Hout; try discriminate Hout.
  all: count_requests.
  all: reflexivity.
Qed.

Lemma delete_one_request (service : Service) (d : ResourceData) :
  length (mutation_requests (run_trace (runMutation Delete service d))) = 1%nat.
Proof.
  pattern (runMutation Delete service d). symex.
  all: count_requests.
  all: reflexivity.
Qed.

Section SubmitOnce.

Variable service : Service.

(** C8: a submitter issues its request exactly once, whatever the answer
    (any status code, a missing [Location], a transport error): its
    transcript is that single request.  A whole mutation therefore never
    contains a second create, update or delete request; it contains exactly
    one whenever it returns without diagnostics, and a delete always
    contains exactly one. *)
Theorem submission_issued_once :
  (∀ storageLink volumeType volumeName optimumIOSizeBytes capacityBytes
     readCachePolicy writeCachePolicy diskCachePolicy drives applyTime,
     length (mutation_requests
       (createVolume service storageLink volumeType volumeName optimumIOSizeBytes
          capacityBytes readCachePolicy writeCachePolicy diskCachePolicy drives
          applyTime).1) = 1%nat
     ∧ length (createVolume service storageLink volumeType volumeName
          optimumIOSizeBytes capacityBytes readCachePolicy writeCachePolicy
          diskCachePolicy drives applyTime).1 = 1%nat)
  ∧ (∀ storageLink readCachePolicy writeCachePolicy volumeName diskCachePolicy
       applyTime,
     length (mutation_requests
       (updateVolume service storageLink readCachePolicy writeCachePolicy volumeName
          diskCachePolicy applyTime).1) = 1%nat
     ∧ length (updateVolume service storageLink readCachePolicy writeCachePolicy
          volumeName diskCachePolicy applyTime).1 = 1%nat)
  ∧ (∀ volumeURI,
     length (mutation_requests (deleteVolume service volumeURI).1) = 1%nat
     ∧ length (deleteVolume service volumeURI).1 = 1%nat)
  ∧ (∀ op d,
     (length (mutation_requests (run_trace (runMutation op service d))) ≤ 1)%nat
     ∧ (run_outcome (runMutation op service d) = Returned [] →
        length (mutation_requests (run_trace (runMutation op service d))) = 1%nat))
  ∧ (∀ d,
     length (mutation_requests (run_trace (deleteRedfishStorageVolume service d)))
     = 1%nat).
Proof.
  split; [|split; [|split; [|split]]].
  - intros. split; reflexivity.
  - intros. split; reflexivity.
  - intros. split; reflexivity.
  - intros. split.
    + apply mutation_at_most_one_request.
    + apply successful_mutation_one_request.
  - intros. apply delete_one_request.
Qed.

End SubmitOnce.

(** ** The power reset *)

Lemma power_not_accepted rt to iv answer :
  ¬ accepted_submission (EvPowerOperation rt to iv answer).
Proof. intros (? & ? & [=] & _). Qed.

Ltac not_accepted :=
  let Hsome := fresh in
  intros (? & ? & Hsome & ?); cbn in Hsome;
  first [ discriminate Hsome
        | injection Hsome as <-;
          match goal with Hrej : ∀ jobID, ¬ accepted _ jobID |- _ => by eapply Hrej end ].

Ltac trace_Exists tac :=
  first [ apply Exists_cons_hd; solve [tac]
        | apply Exists_cons_tl; trace_Exists tac
        | apply Exists_app; right; trace_Exists tac ].

Ltac is_accepted :=
  eexists _, _; split; [reflexivity|eassumption].

Section PowerReset.

Variables (op : Mutation) (service : Service) (d : ResourceData).

(** C5 (as amended): a mutation calls [PowerOperation] if and only if the
    requested apply time is [OnReset] and its submission was accepted with a
    job handle; with any other apply time, [Immediate] in particular, no
    power operation is requested. *)
Theorem power_operation_iff_OnReset_after_submission :
  (Exists (fun ev => is_power_operation ev = true) (run_trace (runMutation op service d))
   ↔ settings_apply_time d = OnResetApplyTime
     ∧ Exists accepted_submission (run_trace (runMutation op service d)))
  ∧ (settings_apply_time d = ImmediateApplyTime →
     Forall (fun ev => is_power_operation ev = false)
            (run_trace (runMutation op service d))).
Proof.
  pattern (runMutation op service d). symex.
  all: split;
    [| intros Himmediate;
       first [ trace_Forall ltac:(reflexivity)
             | exfalso; unfold OnResetApplyTime, ImmediateApplyTime in *;
               congruence ] ].
  all: first
    [ (* no power operation in this run *)
      split;
      [ intros Hpower; exfalso;
        eapply Exists_Forall_neg; [exact Hpower|];
        trace_Forall ltac:(discriminate)
      | first [ by intros [? _]
              | intros [_ Hsub]; exfalso;
                eapply Exists_Forall_neg; [exact Hsub|];
                trace_Forall ltac:(not_accepted) ] ]
    | (* a power operation, after an accepted submission *)
      split;
      [ intros _; split; [assumption|]; trace_Exists ltac:(is_accepted)
      | intros _; trace_Exists ltac:(reflexivity) ] ].
Qed.

End PowerReset.

(** C5 (counterexample): the apply time is [OnReset], the controller
    answers the DELETE with 404, and no power operation is requested. *)
Lemma OnReset_without_power_operation :
  let d := sampleData "OnReset" in
  let service := sampleService ["Immediate"; "OnReset"] 404 [] in
  settings_apply_time d = OnResetApplyTime
  ∧ run_trace (deleteRedfishStorageVolume service d)
    = [EvLock "https://bmc-1";
       EvDelete "/volumes/0" (OK (mkResponse 404 (locationHeader "/jobs/3")));
       EvUnlock "https://bmc-1"]
  ∧ ¬ Exists (fun ev => is_power_operation ev = true)
             (run_trace (deleteRedfishStorageVolume service d)).
Proof.
  intros d service.
  assert (run_trace (deleteRedfishStorageVolume service d)
          = [EvLock "https://bmc-1";
             EvDelete "/volumes/0" (OK (mkResponse 404 (locationHeader "/jobs/3")));
             EvUnlock "https://bmc-1"]) as Htrace by reflexivity.
  split; [reflexivity|]. split; [exact Htrace|].
  rewrite Htrace. intros Hpower.
  eapply Exists_Forall_neg; [exact Hpower|].
  repeat constructor; discriminate.
Qed.

Lemma failed_reset_is_power (ev : Event) :
  failed_reset ev → is_power_operation ev = true.
Proof. by destruct ev. Qed.

Ltac not_failed_reset := cbn; first [tauto | congruence].

Section ResetFailure.

Variables (op : Mutation) (service : Service) (d : ResourceData).

(** C6: when the power operation of a mutation comes back with an error
    (the reset failed or timed out), the mutation returns the error
    diagnostic of the reset at once.  The transcript ends with the failed
    power operation followed only by the release of the mutex: the job is
    never polled, and nothing is sent to the controller about the job that
    the accepted submission, the only mutation request of the run, had
    started.  This can only happen with the apply time [OnReset]. *)
Theorem failed_reset_aborts_before_polling :
  Exists failed_reset (run_trace (runMutation op service d)) →
  run_outcome (runMutation op service d)
  = Returned (diag_Errorf "there was an issue when restarting the server")
  ∧ (∃ pre ev,
       run_trace (runMutation op service d) = pre ++ [ev; EvUnlock (rd_endpoint d)]
       ∧ failed_reset ev
       ∧ Exists accepted_submission pre
       ∧ length (mutation_requests pre) = 1%nat)
  ∧ Forall (fun ev => is_job_poll ev = false) (run_trace (runMutation op service d))
  ∧ settings_apply_time d = OnResetApplyTime.
Proof.
  pattern (runMutation op service d). symex.
  all: intros Hfailed.
  all: try solve [ exfalso; eapply Exists_Forall_neg; [exact Hfailed|];
                   trace_Forall ltac:(not_failed_reset) ].
  all: split; [reflexivity|].
  all: split; [|split; [trace_Forall ltac:(reflexivity)|assumption]].
  all: match goal with
       | |- ∃ pre ev, ?t = _ ∧ _ =>
           let pre := split_last2 t in exists pre; eexists
       end.
  all: split; [reflexivity|].
  all: split; [exact Hreset|].
  all: split; [trace_Exists ltac:(is_accepted)|reflexivity].
Qed.

End ResetFailure.

(** C6 (worked example): the controller supports [OnReset] and accepts the
    volume creation, but the host reset fails. *)
Lemma failed_reset_aborts_before_polling_witness :
  let d := sampleData "OnReset" in
  let service := sampleService ["Immediate"; "OnReset"] 202
                   (diag_Errorf "reset timed out") in
  Exists failed_reset (run_trace (createRedfishStorageVolume service d))
  ∧ run_outcome (createRedfishStorageVolume service d)
    = Returned (diag_Errorf "there was an issue when restarting the server")
  ∧ Forall (fun ev => is_job_poll ev = false)
           (run_trace (createRedfishStorageVolume service d)).
Proof.
  intros d service.
  assert (Exists failed_reset (run_trace (runMutation Create service d))) as Hfailed.
  { let t := eval vm_compute in (run_trace (runMutation Create service d)) in
    change (Exists failed_reset t).
    do 6 apply Exists_cons_tl. apply Exists_cons_hd. reflexivity. }
  destruct (failed_reset_aborts_before_polling Create service d Hfailed)
    as (Hout & _ & Hpolls & _).
  split; [exact Hfailed|]. split; [exact Hout|exact Hpolls].
Defined.

(** ** Capability validation *)


Ltac supported :=
  cbn;
  first [ tauto
        | let Hn := fresh in
          intros Hn; apply Hn; by apply checkOperationApplyTimes_elem ].

Section Capability.

Variables (service : Service) (d : ResourceData).

Lemma unsupported_rejected (op : Mutation) :
  Exists (unsupported_capability (settings_apply_time d))
         (run_trace (runMutation op service d)) →
  run_outcome (runMutation op service d)
  = Returned (diag_Errorf ("Storage controller " +:+ storage_controller_id d
                +:+ " does not support settings_apply_time: "
                +:+ settings_apply_time d))
  ∧ (∃ pre ev,
       run_trace (runMutation op service d) = pre ++ [ev; EvUnlock (rd_endpoint d)]
       ∧ unsupported_capability (settings_apply_time d) ev)
  ∧ Forall (fun ev => is_mutation_request ev = false)
           (run_trace (runMutation op service d)).
Proof.
  pattern (runMutation op service d). symex.
  all: intros Hunsupported.
  all: try solve [ exfalso; eapply Exists_Forall_neg; [exact Hunsupported|];
                   trace_Forall ltac:(supported) ].
  all: split; [reflexivity|].
  all: split; [|trace_Forall ltac:(reflexivity)].
  all: match goal with
       | |- ∃ pre ev, ?t = _ ∧ _ =>
           let pre := split_last2 t in exists pre; eexists
       end.
  all: split; [reflexivity|].
  all: cbn; rewrite <- checkOperationApplyTimes_elem; congruence.
Qed.

(** A delete makes no capability query: the DELETE request is the first
    thing it sends. *)
Lemma delete_submits_first :
  ∃ rest,
    run_trace (runMutation Delete service d)
    = EvLock (rd_endpoint d) :: EvDelete (rd_Id d) (svc_Delete service (rd_Id d)) :: rest.
Proof.
  pattern (runMutation Delete service d). symex.
  all: subst; eexists; reflexivity.
Qed.

(** C2 (as amended): in a create and in an update, when the capability
    query answers with a set of apply-time values that does not contain the
    requested one, the mutation is rejected with an error diagnostic naming
    the controller and the value; the transcript contains no POST, PATCH or
    DELETE, and after the capability query nothing but the release of the
    mutex. *)
Theorem unsupported_apply_time_rejected (r : Run) :
  r = createRedfishStorageVolume service d
  ∨ r = updateRedfishStorageVolume service d →
  Exists (unsupported_capability (settings_apply_time d)) (run_trace r) →
  run_outcome r
  = Returned (diag_Errorf ("Storage controller " +:+ storage_controller_id d
                +:+ " does not support settings_apply_time: "
                +:+ settings_apply_time d))
  ∧ (∃ pre ev,
       run_trace r = pre ++ [ev; EvUnlock (rd_endpoint d)]
       ∧ unsupported_capability (settings_apply_time d) ev)
  ∧ Forall (fun ev => is_mutation_request ev = false) (run_trace r).
Proof.
  intros [->| ->].
  - apply (unsupported_rejected Create).
  - apply (unsupported_rejected Update).
Qed.

End Capability.

(** C2 (worked example): the controller advertises only [Immediate]; a
    creation asking for [OnReset] is rejected and no POST is sent. *)
Lemma unsupported_apply_time_rejected_witness :
  let d := sampleData "OnReset" in
  let service := sampleService ["Immediate"] 202 [] in
  Exists (unsupported_capability (settings_apply_time d))
         (run_trace (createRedfishStorageVolume service d))
  ∧ run_outcome (createRedfishStorageVolume service d)
    = Returned (diag_Errorf
        "Storage controller RAID.Integrated.1-1 does not support settings_apply_time: OnReset")
  ∧ Forall (fun ev => is_mutation_request ev = false)
           (run_trace (createRedfishStorageVolume service d)).
Proof.
  intros d service.
  assert (Exists (unsupported_capability (settings_apply_time d))
                 (run_trace (createRedfishStorageVolume service d))) as Hunsupported.
  { let t := eval vm_compute in (run_trace (createRedfishStorageVolume service d)) in
    change (Exists (unsupported_capability "OnReset") t).
    do 3 apply Exists_cons_tl. apply Exists_cons_hd. cbn.
    intros Hin. apply list_elem_of_singleton in Hin. discriminate Hin. }
  destruct (unsupported_apply_time_rejected service d
              (createRedfishStorageVolume service d) (or_introl eq_refl) Hunsupported)
    as (Hout & _ & Hnone).
  split; [exact Hunsupported|]. split; [exact Hout|exact Hnone].
Defined.

(** C2 (counterexample): the same controller and the same request for
    [OnReset], in a delete: the DELETE is sent, the host is reset, the job
    is polled to completion, and the delete succeeds. *)
Lemma delete_ignores_capabilities :
  let d := sampleData "OnReset" in
  let service := sampleService ["Immediate"] 202 [] in
  st_GetOperationApplyTimeValues (sampleController ["Immediate"]) = OK ["Immediate"]
  ∧ (settings_apply_time d ∉ ["Immediate"])
  ∧ run_outcome (deleteRedfishStorageVolume service d) = Returned []
  ∧ run_trace (deleteRedfishStorageVolume service d)
    = [EvLock "https://bmc-1";
       EvDelete "/volumes/0" (OK (mkResponse 202 (locationHeader "/jobs/3")));
       EvPowerOperation "ForceRestart" 120 10 [];
       EvGetTask "/jobs/3" 10 JobRunning;
       EvGetTask "/jobs/3" 20 JobCompleted;
       EvUnlock "https://bmc-1"].
Proof.
  intros d service. split; [reflexivity|]. split.
  - intros Hin. apply list_elem_of_singleton in Hin. discriminate Hin.
  - split; vm_compute; reflexivity.
Qed.

(** ** Termination of the polling phase *)

Lemma mutation_polls_in_time (op : Mutation) (service : Service) (d : ResourceData) :
  run_outcome (runMutation op service d) ≠ Hangs
  ∧ Forall (fun ev => is_job_poll ev = true →
                      ∃ jobURI now answer,
                        ev = EvGetTask jobURI now answer
                        ∧ 0 < now ≤ volume_job_timeout d)
           (run_trace (runMutation op service d)).
Proof.
  pattern (runMutation op service d). symex.
  all: split; [done|].
  all: repeat first
         [ apply Forall_nil_2
         | apply Forall_cons_2; [solve [cbn; intros; discriminate]|]
         | apply Forall_app_2; [|]
         | (eapply Forall_impl; [eassumption|];
            intros ? (? & ? & -> & ?) _;
            eexists _, _, _; split; [reflexivity|assumption]) ].
Qed.

(** C7: the poll loop with a positive interval and a non-negative job
    timeout ends (the same way for every sufficient budget of iterations)
    in one of Completed, Failed or TimedOut, at the latest
    [timeout + timeBetweenAttempts] seconds after its start on the poller's
    own clock; it is TimedOut exactly when that clock has passed the
    timeout, every GET is issued within the timeout, and their number is
    bounded.  In every mutation, which polls every
    [intervalStorageVolumeJobCheckTime] seconds with the timeout
    [volume_job_timeout], the polling phase ends and every poll is issued
    within the timeout. *)
Theorem job_polling_terminates :
  (∀ getTask jobURI timeBetweenAttempts timeout,
     0 < timeBetweenAttempts → 0 ≤ timeout →
     ∃ tr e,
       (∀ fuel, (pollBudget timeBetweenAttempts timeout ≤ fuel)%nat →
          pollJob getTask jobURI timeBetweenAttempts timeout fuel 0 0%nat
          = (tr, Some e))
       ∧ (pe_state e = Completed ∨ (∃ message, pe_state e = Failed message)
          ∨ pe_state e = TimedOut)
       ∧ 0 < pe_elapsed e ≤ timeout + timeBetweenAttempts
       ∧ (pe_state e = TimedOut ↔ timeout < pe_elapsed e)
       ∧ Forall (timely_poll jobURI timeout 0) tr
       ∧ (length tr ≤ pollBudget timeBetweenAttempts timeout)%nat)
  ∧ (∀ op service d,
       run_outcome (runMutation op service d) ≠ Hangs
       ∧ Forall (fun ev => is_job_poll ev = true →
                           ∃ jobURI now answer,
                             ev = EvGetTask jobURI now answer
                             ∧ 0 < now ≤ volume_job_timeout d)
                (run_trace (runMutation op service d))).
Proof.
  split.
  - intros. by apply pollJob_ends_in_time.
  - apply mutation_polls_in_time.
Qed.

(** C7 (worked example): with the defaults of the storage-volume resource
    (a poll every 10 seconds, a timeout of 1200 seconds) a job that stays
    Running for ever is given up no later than second 1210. *)
Lemma job_polling_terminates_witness :
  0 < 10 ∧ 0 ≤ 1200
  ∧ ∃ tr e,
      (∀ fuel, (pollBudget 10 1200 ≤ fuel)%nat →
         pollJob (fun _ => JobRunning) "/jobs/1" 10 1200 fuel 0 0%nat = (tr, Some e))
      ∧ 0 < pe_elapsed e ≤ 1200 + 10.
Proof.
  assert (0 < 10) as Hpos by lia.
  assert (0 ≤ 1200) as Hnn by lia.
  split; [exact Hpos|]. split; [exact Hnn|].
  destruct (proj1 job_polling_terminates (fun _ => JobRunning) "/jobs/1" 10 1200
              Hpos Hnn)
    as (tr & e & Hrun & _ & Hbound & _).
  exists tr, e. split; [exact Hrun|exact Hbound].
Defined.

(** ** A complete run *)

(** The scenario of the specification: apply time [Immediate], the job
    completes at the second poll (second 20), the volume is found by its
    name, its reference becomes the resource identifier, and the mutex is
    released. *)
Example create_immediate_scenario :
  let r := createRedfishStorageVolume (sampleService ["Immediate"] 202 [])
             (sampleData "Immediate") in
  run_outcome r = Returned []
  ∧ rd_Id (run_d r) = "/volumes/0"
  ∧ filter (fun ev => is_job_poll ev = true ∨ is_mutex_event ev = true) (run_trace r)
    = [EvLock "https://bmc-1";
       EvGetTask "/jobs/1" 10 JobRunning;
       EvGetTask "/jobs/1" 20 JobCompleted;
       EvUnlock "https://bmc-1"].
Proof. vm_compute. repeat split. Qed.

(** * Further properties of the mutations *)

(** ** Rejections that precede every call to the controller *)

Lemma no_drives (d : ResourceData) : length (drives d) = 0%nat ↔ drives d = [].
Proof. by destruct (drives d). Qed.

Ltac drives_facts :=
  repeat match goal with
    | H : length (drives _) = 0%nat |- _ => apply no_drives in H
    | H : length (drives _) ≠ 0%nat |- _ => rewrite no_drives in H
    | H : driveNamesOf (drives _) = None |- _ => apply driveNamesOf_None in H
    | H : driveNamesOf (drives ?d) = Some _ |- _ =>
        assert (None ∉ drives d)
          by (rewrite <- driveNamesOf_None; congruence);
        clear H
    end.

Section InvalidDrives.

Variables (service : Service) (d : ResourceData).

Lemma invalid_drives_run (op : Mutation) :
  op = Create ∨ op = Update →
  drives d = [] ∨ None ∈ drives d →
  run_trace (runMutation op service d)
  = [EvLock (rd_endpoint d); EvUnlock (rd_endpoint d)]
  ∧ run_d (runMutation op service d) = d
  ∧ run_outcome (runMutation op service d)
    = Returned (diag_Errorf
        (if decide (drives d = [])
         then "Error when getting the drives: drives cannot be empty"
         else "Error when getting the drives: drive name cannot be blank")).
Proof.
  intros [->| ->] Hbad; revert Hbad.
  all: match goal with |- _ → ?G =>
         match G with context [runMutation ?op service d] =>
           pattern (runMutation op service d) end end.
  all: symex; intros Hbad; drives_facts.
  all: try solve [destruct Hbad; congruence].
  all: split; [reflexivity|]; split; [reflexivity|].
  all: first [ by rewrite decide_True by assumption
             | by rewrite decide_False by assumption ].
Qed.

(** X4: a create or an update whose list of drives is empty or holds a
    [nil] element is rejected, with the diagnostic of the conversion loop,
    before any call to the controller: the transcript is the acquisition and
    the release of the mutex and nothing else, and the resource data is
    unchanged. *)
Theorem invalid_drives_rejected (r : Run) :
  r = createRedfishStorageVolume service d
  ∨ r = updateRedfishStorageVolume service d →
  drives d = [] ∨ None ∈ drives d →
  run_trace r = [EvLock (rd_endpoint d); EvUnlock (rd_endpoint d)]
  ∧ run_d r = d
  ∧ run_outcome r
    = Returned (diag_Errorf
        (if decide (drives d = [])
         then "Error when getting the drives: drives cannot be empty"
         else "Error when getting the drives: drive name cannot be blank")).
Proof.
  intros [->| ->] Hbad.
  - apply (invalid_drives_run Create); [by left|done].
  - apply (invalid_drives_run Update); [by right|done].
Qed.

End InvalidDrives.

(** X4 (worked example): a blank drive name in a create. *)
Lemma invalid_drives_rejected_witness :
  let d := mkResourceData "https://bmc-1" "" "RAID.Integrated.1-1" "Mirrored" "vd0"
             0 1000000000 [Some "Disk0"; None] "Off" "WriteThrough" "Enabled"
             "Immediate" "ForceRestart" 120 1200 in
  let service := sampleService ["Immediate"] 202 [] in
  (drives d = [] ∨ None ∈ drives d)
  ∧ run_trace (createRedfishStorageVolume service d)
    = [EvLock "https://bmc-1"; EvUnlock "https://bmc-1"]
  ∧ run_outcome (createRedfishStorageVolume service d)
    = Returned (diag_Errorf "Error when getting the drives: drive name cannot be blank").
Proof.
  intros d service.
  assert (drives d = [] ∨ None ∈ drives d) as Hbad
    by (right; apply list_elem_of_further, list_elem_of_here).
  destruct (invalid_drives_rejected service d (createRedfishStorageVolume service d)
              (or_introl eq_refl) Hbad) as (Htrace & _ & Hout).
  split; [exact Hbad|]. split; [exact Htrace|exact Hout].
Defined.

(** ** The only panic *)

Section Panic.

Variables (service : Service) (d : ResourceData).

Lemma panic_iff (op : Mutation) :
  op = Create ∨ op = Update →
  (run_outcome (runMutation op service d) = Panics
   ↔ svc_Systems service = OK [] ∧ drives d ≠ [] ∧ None ∉ drives d)
  ∧ (run_outcome (runMutation op service d) = Panics →
     run_trace (runMutation op service d)
     = [EvLock (rd_endpoint d); EvSystems (OK []); EvUnlock (rd_endpoint d)]
     ∧ run_d (runMutation op service d) = d).
Proof.
  intros [->| ->].
  all: match goal with |- ?G =>
         match G with context [runMutation ?op service d] =>
           pattern (runMutation op service d) end end.
  all: symex; drives_facts.
  all: first
    [ (split; [split; [discriminate|]|discriminate]);
      intros (Hsys & Hsome & Hnonil); congruence
    | split; [split; [by intros _|done]|by intros _] ].
Qed.

Lemma delete_never_panics :
  run_outcome (runMutation Delete service d) ≠ Panics.
Proof. pattern (runMutation Delete service d). symex. all: discriminate. Qed.

(** X5: a create or an update panics exactly when the drive list is valid
    (not empty, no [nil] element) and the service returns an empty list of
    systems, so that [systems[0]] is out of range; the mutex is released
    all the same, nothing else has been sent and the resource data is
    unchanged.  A delete never panics. *)
Theorem panic_only_on_empty_systems :
  (∀ r, r = createRedfishStorageVolume service d
        ∨ r = updateRedfishStorageVolume service d →
     (run_outcome r = Panics
      ↔ svc_Systems service = OK [] ∧ drives d ≠ [] ∧ None ∉ drives d)
     ∧ (run_outcome r = Panics →
        run_trace r
        = [EvLock (rd_endpoint d); EvSystems (OK []); EvUnlock (rd_endpoint d)]
        ∧ run_d r = d))
  ∧ run_outcome (deleteRedfishStorageVolume service d) ≠ Panics.
Proof.
  split.
  - intros r [->| ->].
    + apply (panic_iff Create). by left.
    + apply (panic_iff Update). by right.
  - apply delete_never_panics.
Qed.

End Panic.

(** ** The resource data *)

Section ResourceDataChanges.

Variables (service : Service) (d : ResourceData).


(** X8: an update and a delete never change the resource data, the
    resource identifier included, whatever their outcome (a delete that
    succeeds leaves the identifier of the deleted volume in place). *)
Theorem update_delete_keep_data :
  run_d (updateRedfishStorageVolume service d) = d
  ∧ run_d (deleteRedfishStorageVolume service d) = d.
Proof.
  split.
  - change (updateRedfishStorageVolume service d)
      with (runMutation Update service d).
    pattern (runMutation Update service d). symex.
    all: reflexivity.
  - change (deleteRedfishStorageVolume service d)
      with (runMutation Delete service d).
    pattern (runMutation Delete service d). symex.
    all: reflexivity.
Qed.



End ResourceDataChanges.

(** ** What is sent, and where *)

(** The request of the submitter, made explicit in the hypothesis left by
    the symbolic execution. *)
Ltac explicit_request :=
  match goal with
  | H : (createVolume _ _ _ _ _ _ _ _ _ _ _).1 = [_] |- _ =>
      unfold createVolume in H; cbn [fst] in H; injection H as <- <- <-
  | H : (updateVolume _ _ _ _ _ _ _).1 = [_] |- _ =>
      unfold updateVolume in H; cbn [fst] in H; injection H as <- <- <-
  | H : (deleteVolume _ _).1 = [_] |- _ =>
      unfold deleteVolume in H; cbn [fst] in H; injection H as <-
  end.

Section Requests.

Variables (service : Service) (d : ResourceData).

(** X10: the only mutation request a create can make is a POST to the
    [Volumes] collection of the controller that [getStorageController]
    finds, by the configured ID, among the storage of the first system; its
    body names the volume and its type and capacity as configured, carries
    the requested apply time, and lists the references of exactly the
    drives [getDrives] selected, in their order.  A create never sends a
    PATCH or a DELETE. *)
Theorem create_sends_configured_volume :
  Forall (create_request service d) (run_trace (createRedfishStorageVolume service d)).
Proof.
  change (createRedfishStorageVolume service d)
    with (runMutation Create service d).
  pattern (runMutation Create service d). symex.
  all: try explicit_request.
  all: trace_Forall ltac:(first
         [ exact I
         | cbn; eexists _, _, _, _, _, _, _;
           repeat (split; [first [eassumption|reflexivity]|]); reflexivity ]).
Qed.

(** X11: the only mutation request an update can make is a PATCH to the
    [Settings] of the volume the resource identifies, carrying the name,
    the cache policies and the apply time; the body has no volume type, no
    capacity and no drives (these cannot be updated).  The only mutation
    request a delete can make is a DELETE of the volume the resource
    identifies. *)
Theorem update_delete_requests :
  Forall (update_request service d) (run_trace (updateRedfishStorageVolume service d))
  ∧ Forall (delete_request service d)
           (run_trace (deleteRedfishStorageVolume service d)).
Proof.
  split.
  - change (updateRedfishStorageVolume service d)
      with (runMutation Update service d).
    pattern (runMutation Update service d). symex.
    all: try explicit_request.
    all: trace_Forall ltac:(first [ exact I | cbn; repeat split ]).
  - change (deleteRedfishStorageVolume service d)
      with (runMutation Delete service d).
    pattern (runMutation Delete service d). symex.
    all: try explicit_request.
    all: trace_Forall ltac:(first [ exact I | cbn; by split ]).
Qed.

End Requests.

(** ** The order of the phases *)

Ltac before_polls t :=
  lazymatch t with
  | ?x :: ?l => let r := before_polls l in constr:(x :: r)
  | _ ++ _ => constr:(@nil Event)
  end.

Ltac polls_of t :=
  lazymatch t with
  | _ :: ?l => polls_of l
  | ?p ++ _ => constr:(p)
  end.

Ltac after_polls t :=
  lazymatch t with
  | _ :: ?l => after_polls l
  | _ ++ ?k => constr:(k)
  end.

Section Phases.

Variables (op : Mutation) (service : Service) (d : ResourceData).

(** X12: in every mutation the polls of the job form one block of the
    transcript.  When there are polls, they all fetch the job whose handle
    an accepted submission returned earlier in the same run, and each is
    issued within [volume_job_timeout] on the poller's clock. *)
Theorem polls_follow_accepted_submission :
  ∃ before polls after,
    run_trace (runMutation op service d) = before ++ polls ++ after
    ∧ Forall (fun ev => is_job_poll ev = false) before
    ∧ Forall (fun ev => is_job_poll ev = false) after
    ∧ (polls = []
       ∨ ∃ jobID,
           Forall (timely_poll jobID (volume_job_timeout d) 0) polls
           ∧ Exists (fun sub => ∃ answer, submission_answer sub = Some answer
                                          ∧ accepted answer jobID) before).
Proof.
  pattern (runMutation op service d). symex.
  all: match goal with
       | |- ∃ before polls after, ?t = _ ∧ _ =>
           first [ let b := before_polls t in
                   let p := polls_of t in
                   let a := after_polls t in
                   exists b, p, a
                 | exists t, [], [] ]
       end.
  all: split; [cbn [app]; rewrite ?app_nil_r; reflexivity|].
  all: split; [trace_Forall ltac:(reflexivity)|].
  all: split; [trace_Forall ltac:(reflexivity)|].
  all: first
    [ by left
    | right; eexists; split; [eassumption|];
      trace_Exists ltac:(eexists; split; [reflexivity|eassumption]) ].
Qed.

End Phases.

Lemma supported_is_capability (applyTime : string) (ev : Event) :
  supported_capability applyTime ev → is_mutation_request ev = false.
Proof. by destruct ev. Qed.

Section CapabilityFirst.

Variables (service : Service) (d : ResourceData).

Lemma request_after_capability_run (op : Mutation) :
  op = Create ∨ op = Update →
  Exists (fun ev => is_mutation_request ev = true)
         (run_trace (runMutation op service d)) →
  Exists (supported_capability (settings_apply_time d))
         (events_before is_mutation_request (run_trace (runMutation op service d))).
Proof.
  intros [->| ->].
  all: match goal with |- ?G =>
         match G with context [runMutation ?op service d] =>
           pattern (runMutation op service d) end end.
  all: symex; intros Hrequest.
  all: try solve [ exfalso; eapply Exists_Forall_neg; [exact Hrequest|];
                   trace_Forall ltac:(discriminate) ].
  all: cbn [events_before is_mutation_request].
  all: trace_Exists ltac:(cbn; by apply checkOperationApplyTimes_elem).
Qed.

(** X13: a create or an update sends its POST or PATCH only after a
    capability query of the same run was answered with a set of apply-time
    values that contains the requested one: a failed or unsupported
    capability query, or none at all, means no request. *)
Theorem request_only_after_supported_capability (r : Run) :
  r = createRedfishStorageVolume service d
  ∨ r = updateRedfishStorageVolume service d →
  Exists (fun ev => is_mutation_request ev = true) (run_trace r) →
  Exists (supported_capability (settings_apply_time d))
         (events_before is_mutation_request (run_trace r)).
Proof.
  intros [->| ->].
  - apply (request_after_capability_run Create). by left.
  - apply (request_after_capability_run Update). by right.
Qed.

End CapabilityFirst.

(** X13 (worked example): a creation with a supported apply time. *)
Lemma request_only_after_supported_capability_witness :
  let d := sampleData "Immediate" in
  let service := sampleService ["Immediate"] 202 [] in
  Exists (fun ev => is_mutation_request ev = true)
         (run_trace (createRedfishStorageVolume service d))
  ∧ Exists (supported_capability (settings_apply_time d))
           (events_before is_mutation_request
              (run_trace (createRedfishStorageVolume service d))).
Proof.
  intros d service.
  assert (Exists (fun ev => is_mutation_request ev = true)
                 (run_trace (createRedfishStorageVolume service d))) as Hrequest.
  { let t := eval vm_compute in (run_trace (createRedfishStorageVolume service d)) in
    change (Exists (fun ev => is_mutation_request ev = true) t).
    do 5 apply Exists_cons_tl. apply Exists_cons_hd. reflexivity. }
  split; [exact Hrequest|].
  exact (request_only_after_supported_capability service d
           (createRedfishStorageVolume service d) (or_introl eq_refl) Hrequest).
Defined.

(** ** Where the volume is read *)

Section ReadPlacement.

Variables (service : Service) (d : ResourceData).

(** X14: when a create reads the volume back, it does so while it still
    holds the mutex of the endpoint: the read is the last event before the
    release, it is the only read, and the volume read is the one that
    [getVolumeID] resolved from the listed volumes by the configured
    name. *)
Theorem create_reads_under_mutex :
  Exists (fun ev => is_volume_read ev = true)
         (run_trace (createRedfishStorageVolume service d)) →
  ∃ mid id,
    run_trace (createRedfishStorageVolume service d)
    = EvLock (rd_endpoint d)
      :: mid ++ [EvGetVolume id (svc_GetVolume service id); EvUnlock (rd_endpoint d)]
    ∧ Forall (fun ev => is_mutex_event ev = false ∧ is_volume_read ev = false) mid
    ∧ Exists (fun ev => ∃ name volumes,
                ev = EvVolumes name (OK volumes)
                ∧ getVolumeID volumes (volume_name d) = OK id) mid.
Proof.
  change (createRedfishStorageVolume service d)
    with (runMutation Create service d).
  pattern (runMutation Create service d). symex.
  all: intros Hread.
  all: try solve [ exfalso; eapply Exists_Forall_neg; [exact Hread|];
                   trace_Forall ltac:(discriminate) ].
  all: match goal with
       | |- ∃ mid id, _ :: ?t = _ ∧ _ =>
           let t' := split_last t in
           let mid := split_last t' in
           exists mid; eexists
       end.
  all: split;
    [ cbn [app]; rewrite <- ?app_assoc; cbn [app];
      repeat match goal with H : svc_GetVolume _ _ = _ |- _ => rewrite H end;
      reflexivity |].
  all: split; [trace_Forall ltac:(by split)|].
  all: trace_Exists ltac:(eexists _, _; split; [reflexivity|eassumption]).
Qed.

End ReadPlacement.

(** X14 (worked example): the scenario of a complete creation. *)
Lemma create_reads_under_mutex_witness :
  let d := sampleData "Immediate" in
  let service := sampleService ["Immediate"] 202 [] in
  Exists (fun ev => is_volume_read ev = true)
         (run_trace (createRedfishStorageVolume service d))
  ∧ ∃ mid id,
      run_trace (createRedfishStorageVolume service d)
      = EvLock (rd_endpoint d)
        :: mid ++ [EvGetVolume id (svc_GetVolume service id);
                   EvUnlock (rd_endpoint d)].
Proof.
  intros d service.
  assert (Exists (fun ev => is_volume_read ev = true)
                 (run_trace (createRedfishStorageVolume service d))) as Hread.
  { let t := eval vm_compute in (run_trace (createRedfishStorageVolume service d)) in
    change (Exists (fun ev => is_volume_read ev = true) t).
    do 9 apply Exists_cons_tl. apply Exists_cons_hd. reflexivity. }
  split; [exact Hread|].
  destruct (create_reads_under_mutex service d Hread) as (mid & id & Htrace & _).
  exists mid, id. exact Htrace.
Defined.

(** ** The update entry point *)

Lemma read_run (service : Service) (d : ResourceData) :
  run_trace (readRedfishStorageVolume service d)
  = [EvGetVolume (rd_Id d) (svc_GetVolume service (rd_Id d))].
Proof.
  unfold readRedfishStorageVolume, runFunc, readRedfishStorageVolume_body.
  unfold readData, emit, exit, d_SetId, mbind, M_bind, mret, M_ret. cbn.
  destruct (svc_GetVolume service (rd_Id d)) as [vol|[msg|code rendered]]; cbn;
    [done|done|].
  by destruct (decide (code = StatusNotFound)).
Qed.

Lemma update_run_shape (service : Service) (d : ResourceData) :
  ∃ mid,
    run_trace (runMutation Update service d)
    = EvLock (rd_endpoint d) :: mid ++ [EvUnlock (rd_endpoint d)]
    ∧ Forall (fun ev => is_mutex_event ev = false ∧ is_volume_read ev = false) mid
    ∧ run_d (runMutation Update service d) = d
    ∧ (run_outcome (runMutation Update service d) = Panics
       ∨ run_outcome (runMutation Update service d) = Returned []
       ∨ ∃ msg, run_outcome (runMutation Update service d)
                = Returned (diag_Errorf msg)).
Proof.
  pattern (runMutation Update service d). symex.
  all: match goal with
       | |- ∃ mid, _ :: ?t = _ ∧ _ =>
           let mid := split_last t in exists mid
       end.
  all: split; [cbn [app]; rewrite <- ?app_assoc; reflexivity|].
  all: split; [trace_Forall ltac:(by split)|].
  all: split; [reflexivity|]; eauto.
Qed.

Lemma HasError_Errorf (msg : string) : HasError (diag_Errorf msg) = true.
Proof. reflexivity. Qed.

Lemma HasError_nil : HasError [] = false.
Proof. reflexivity. Qed.

Section UpdateEntryPoint.

Variable NewConfig : nat -> ResourceData -> result Service.
Variable formatted : string -> string.
Variables (k : nat) (d : ResourceData).

Local Abbreviation entry :=
  (resourceRedfishStorageVolumeUpdate NewConfig formatted k d).

Ltac no_read_in mid Hmid :=
  intros Hread; exfalso;
  eapply Exists_Forall_neg; [exact Hread|];
  first [ apply Forall_nil_2
        | apply Forall_cons_2; [discriminate|];
          apply Forall_app_2;
          [ eapply Forall_impl; [exact Hmid|]; intros ? [_ ?]; congruence
          | repeat constructor; discriminate ] ].

(** X15: the update entry point reads the volume back exactly when it
    obtained a service client, the update returned no diagnostics, and a
    second service client was obtained for the read.  The read is then the
    last event of the run and comes after the release of the mutex that
    the update held: unlike the read of a create, it is not covered by the
    mutex.  The diagnostics of the entry point are then those of the read,
    and the resource data is what the read leaves. *)
Theorem update_entry_point_reads_after_release :
  (Exists (fun ev => is_volume_read ev = true) (run_trace entry)
   ↔ ∃ service service',
       NewConfig k d = OK service
       ∧ run_outcome (updateRedfishStorageVolume service d) = Returned []
       ∧ NewConfig (S k) d = OK service')
  ∧ (∀ service service',
       NewConfig k d = OK service →
       run_outcome (updateRedfishStorageVolume service d) = Returned [] →
       NewConfig (S k) d = OK service' →
       (∃ mid,
          run_trace entry
          = EvLock (rd_endpoint d)
            :: mid ++ [EvUnlock (rd_endpoint d);
                       EvGetVolume (rd_Id d) (svc_GetVolume service' (rd_Id d))]
          ∧ Forall (fun ev => is_mutex_event ev = false ∧ is_volume_read ev = false)
                   mid)
       ∧ run_outcome entry = run_outcome (readRedfishStorageVolume service' d)
       ∧ run_d entry = run_d (readRedfishStorageVolume service' d)).
Proof.
  unfold resourceRedfishStorageVolumeUpdate, resourceRedfishStorageVolumeRead.
  destruct (NewConfig k d) as [service|err] eqn:Hconfig.
  2: { split.
       - split; [by intros ?%Exists_nil|]. by intros (? & ? & [=] & _).
       - by intros ? ? [=]. }
  destruct (update_run_shape service d) as (mid & Htrace & Hmid & Hd & Hout).
  change (runMutation Update service d)
    with (updateRedfishStorageVolume service d) in *.
  cbv zeta. rewrite Hd.
  destruct Hout as [Hout|[Hout|(msg & Hout)]]; rewrite Hout.
  - split.
    + split; [rewrite Htrace; no_read_in mid Hmid|].
      intros (s & ? & [= <-] & Hok & _). congruence.
    + intros s ? [= <-] Hok. congruence.
  - rewrite HasError_nil.
    destruct (NewConfig (S k) d) as [service'|err'] eqn:Hconfig'.
    + cbn [run_trace run_d run_outcome]. rewrite read_run, Htrace. split.
      * split; [eauto|]. intros _.
        apply Exists_cons_tl, Exists_app. right. by apply Exists_cons_hd.
      * intros s s' [= <-] _ [= <-]. split; [|done].
        exists mid. split; [|done]. cbn [app]. by rewrite <- !app_assoc.
    + cbn [run_trace run_d run_outcome]. rewrite app_nil_r, Htrace. split.
      * split; [no_read_in mid Hmid|]. by intros (? & ? & _ & _ & [=]).
      * by intros ? ? _ _ [=].
  - rewrite HasError_Errorf. split.
    + split; [rewrite Htrace; no_read_in mid Hmid|].
      intros (s & ? & [= <-] & Hok & _). rewrite Hout in Hok. discriminate Hok.
    + intros s ? [= <-] Hok. rewrite Hout in Hok. discriminate Hok.
Qed.

End UpdateEntryPoint.

(** ** Diagnostics *)

Section Diagnostics.

Variables (op : Mutation) (service : Service) (d : ResourceData).

(** X16: a mutation that returns reports its failure by exactly one
    diagnostic, of severity error, and otherwise returns no diagnostic at
    all: it never returns a warning, nor several diagnostics. *)
Theorem mutation_diagnostics :
  run_outcome (runMutation op service d) = Panics
  ∨ run_outcome (runMutation op service d) = Returned []
  ∨ ∃ msg, run_outcome (runMutation op service d) = Returned (diag_Errorf msg)
           ∧ HasError (diag_Errorf msg) = true.
Proof.
  pattern (runMutation op service d). symex.
  all: eauto using HasError_Errorf.
Qed.

End Diagnostics.

(** ** The mutex at the entry points *)

Lemma polls_no_mutex jobURI timeout (polls : list Event) :
  Forall (timely_poll jobURI timeout 0) polls → mutex_events polls = [].
Proof.
  induction 1 as [|ev polls (now & answer & -> & _) _ IH]; [done|].
  exact IH.
Qed.

Lemma mutex_events_app (l k : list Event) :
  mutex_events (l ++ k) = mutex_events l ++ mutex_events k.
Proof. apply List.filter_app. Qed.

Lemma mutex_events_cons (ev : Event) (l : list Event) :
  mutex_events (ev :: l)
  = if is_mutex_event ev then ev :: mutex_events l else mutex_events l.
Proof. reflexivity. Qed.

Lemma mutation_mutex_events (op : Mutation) (service : Service) (d : ResourceData) :
  mutex_events (run_trace (runMutation op service d))
  = [EvLock (rd_endpoint d); EvUnlock (rd_endpoint d)].
Proof.
  pattern (runMutation op service d). symex.
  all: repeat first
         [ rewrite mutex_events_cons; cbn [is_mutex_event]
         | rewrite mutex_events_app
         | match goal with
           | H : Forall (timely_poll _ _ _) ?polls |- context [mutex_events ?polls] =>
               rewrite (polls_no_mutex _ _ _ H)
           end ].
  all: reflexivity.
Qed.

Section EntryPointsMutex.

Variable NewConfig : nat -> ResourceData -> result Service.
Variable formatted : string -> string.
Variables (k : nat) (d : ResourceData).

(** X17: the read entry point never touches the endpoint mutex.  Each of
    the create, update and delete entry points locks it exactly once and
    unlocks it exactly once, in this order, when a service client was
    obtained; when [NewConfig] fails they return its error as a diagnostic
    without locking, without sending anything and without changing the
    resource data. *)
Theorem entry_points_mutex :
  mutex_events (run_trace (resourceRedfishStorageVolumeRead NewConfig formatted k d))
  = []
  ∧ (∀ entry,
       entry = resourceRedfishStorageVolumeCreate NewConfig formatted k d
       ∨ entry = resourceRedfishStorageVolumeUpdate NewConfig formatted k d
       ∨ entry = resourceRedfishStorageVolumeDelete NewConfig formatted k d →
       match NewConfig k d with
       | OK _ =>
           mutex_events (run_trace entry)
           = [EvLock (rd_endpoint d); EvUnlock (rd_endpoint d)]
       | Err err =>
           entry = mkRun [] d (Returned (diag_Errorf (formatted (Error err))))
       end).
Proof.
  split.
  - unfold resourceRedfishStorageVolumeRead.
    destruct (NewConfig k d); [by rewrite read_run|done].
  - intros entry [->|[->| ->]].
    + unfold resourceRedfishStorageVolumeCreate.
      destruct (NewConfig k d) as [service|]; [|done].
      apply (mutation_mutex_events Create).
    + unfold resourceRedfishStorageVolumeUpdate, resourceRedfishStorageVolumeRead.
      destruct (NewConfig k d) as [service|]; [|done].
      pose proof (mutation_mutex_events Update service d) as Hmutex.
      destruct (update_run_shape service d) as (_ & _ & _ & Hd & _).
      change (runMutation Update service d)
        with (updateRedfishStorageVolume service d) in *.
      cbv zeta. destruct (run_outcome _) as [diags| |]; [|done|done].
      destruct (HasError diags); [done|].
      cbn [run_trace]. rewrite mutex_events_app, Hmutex, Hd.
      destruct (NewConfig (S k) d); [by rewrite read_run|done].
    + unfold resourceRedfishStorageVolumeDelete.
      destruct (NewConfig k d) as [service|]; [|done].
      apply (mutation_mutex_events Delete).
Qed.

End EntryPointsMutex.

(** ** The power operation *)

Lemma polls_no_power jobURI timeout (polls : list Event) :
  Forall (timely_poll jobURI timeout 0) polls → power_operations polls = [].
Proof.
  induction 1 as [|ev polls (now & answer & -> & _) _ IH]; [done|].
  exact IH.
Qed.

Lemma power_operations_app (l k : list Event) :
  power_operations (l ++ k) = power_operations l ++ power_operations k.
Proof. apply List.filter_app. Qed.

Lemma power_operations_cons (ev : Event) (l : list Event) :
  power_operations (ev :: l)
  = if is_power_operation ev then ev :: power_operations l else power_operations l.
Proof. reflexivity. Qed.

Section PowerOperationOnce.

Variables (op : Mutation) (service : Service) (d : ResourceData).

(** X18: a mutation requests at most one power operation; it asks for the
    configured reset type with the configured reset timeout; and it comes
    after the accepted submission and before every poll of the job. *)
Theorem power_operation_once_before_polling :
  (length (power_operations (run_trace (runMutation op service d))) ≤ 1)%nat
  ∧ Forall (configured_reset d) (run_trace (runMutation op service d))
  ∧ (Exists (fun ev => is_power_operation ev = true)
            (run_trace (runMutation op service d)) →
     Exists accepted_submission
            (events_before is_power_operation (run_trace (runMutation op service d)))
     ∧ Forall (fun ev => is_job_poll ev = false)
              (events_before is_power_operation
                 (run_trace (runMutation op service d)))).
Proof.
  pattern (runMutation op service d). symex.
  all: split;
    [ repeat first
        [ rewrite power_operations_cons; cbn [is_power_operation]
        | rewrite power_operations_app
        | match goal with
          | H : Forall (timely_poll _ _ _) ?polls
            |- context [power_operations ?polls] =>
              rewrite (polls_no_power _ _ _ H)
          end ];
      cbn; lia |].
  all: split; [trace_Forall ltac:(first [exact I | by repeat split])|].
  all: intros Hpower.
  all: try solve [ exfalso; eapply Exists_Forall_neg; [exact Hpower|];
                   trace_Forall ltac:(discriminate) ].
  all: cbn [events_before is_power_operation].
  all: split; [trace_Exists ltac:(is_accepted)|trace_Forall ltac:(reflexivity)].
Qed.

End PowerOperationOnce.
